(** * generate_ieee_figures.py: the data-driven panels of Figure 1

    A shallow embedding of the part of [generate_ieee_figures.py] that reads
    the experimental results and derives what the four panels of
    [simulated_results.png] plot: the per-size and per-noise summaries
    (panels A and B), the quantum/classical comparison (panel C) and the
    two runtime curves (panel D), together with the script's top-level
    control flow (load, draw, save).

    Python floats and numpy's float64 are Rocq's primitive binary64
    floats; the general facts about them go through their IEEE 754
    specification ([FloatAxioms]). *)

From Stdlib Require Import ZArith List String Bool Lia Floats Permutation Sorted.
Import ListNotations.

Set Warnings "-inexact-float".

Local Open Scope Z_scope.

(** ** The data model *)

(** One entry of [data['results']]: the four keys the script reads. The
    collections considered are those whose entries all carry the four
    keys with values of these types; an entry without one of them makes
    the panel that reads it raise a [KeyError]. *)
Record ResultRecord : Type := mkRecord {
  effective_neurons : Z;
  noise_level : string;
  noise_amplitude : float;
  avg_phi : float
}.

(** ** numpy *)

Module np.

(** The number of elements, as the float64 numpy divides by. *)
Definition count (xs : list float) : float :=
  of_uint63 (Uint63.of_Z (Z.of_nat (List.length xs))).

(** numpy adds float64 values with its pairwise summation
    ([DOUBLE_pairwise_sum]). Fewer than eight values are added one after
    the other. Up to 128 values go through eight accumulators: they start
    as the first eight values, every further full block of eight is added
    to them position by position, they are combined as
    [((r0+r1)+(r2+r3))+((r4+r5)+(r6+r7))], and what is left of the array
    (fewer than eight values) is added one by one. *)
Definition acc8 : Type := float * float * float * float * float * float * float * float.

Fixpoint add_blocks (r : acc8) (xs : list float) : acc8 * list float :=
  match xs with
  | a0 :: a1 :: a2 :: a3 :: a4 :: a5 :: a6 :: a7 :: tl =>
      let '(r0, r1, r2, r3, r4, r5, r6, r7) := r in
      add_blocks (r0 + a0, r1 + a1, r2 + a2, r3 + a3,
                  r4 + a4, r5 + a5, r6 + a6, r7 + a7)%float tl
  | rest => (r, rest)
  end.

Definition combine8 (r : acc8) : float :=
  let '(r0, r1, r2, r3, r4, r5, r6, r7) := r in
  (((r0 + r1) + (r2 + r3)) + ((r4 + r5) + (r6 + r7)))%float.

(** The summation of a short array starts from -0.0, so that a sum of
    negative zeros stays a negative zero. *)
Definition sum_sequential (xs : list float) : float :=
  fold_left PrimFloat.add xs neg_zero.

Definition sum_unrolled (xs : list float) : float :=
  match xs with
  | a0 :: a1 :: a2 :: a3 :: a4 :: a5 :: a6 :: a7 :: tl =>
      let '(r, rest) := add_blocks (a0, a1, a2, a3, a4, a5, a6, a7) tl in
      fold_left PrimFloat.add rest (combine8 r)
  | _ => sum_sequential xs
  end.

(** More than 128 values are split in two, the first part a multiple of
    eight long, and the two sums are added. [fuel] bounds the depth of the
    splitting; the length of the array is enough ([pairwise_sum_fuel]). *)
Fixpoint pairwise_sum (fuel : nat) (xs : list float) : float :=
  let n := List.length xs in
  if (n <? 8)%nat then sum_sequential xs
  else if (n <=? 128)%nat then sum_unrolled xs
  else
    match fuel with
    | O => sum_unrolled xs
    | S fuel' =>
        let n2 := (n / 2 - (n / 2) mod 8)%nat in
        (pairwise_sum fuel' (firstn n2 xs) + pairwise_sum fuel' (skipn n2 xs))%float
    end.

(** [np.sum(a)] of a float64 array: the reduction of a non-empty array
    starts from -0.0 and adds the pairwise sum of all its elements; the
    sum of an empty array is 0.0. *)
Definition sum (xs : list float) : float :=
  match xs with
  | [] => 0%float
  | _ :: _ => (neg_zero + pairwise_sum (List.length xs) xs)%float
  end.

(** [np.mean(a)]: the sum divided by the number of elements; [nan] for an
    empty list (0/0). *)
Definition mean (xs : list float) : float :=
  (sum xs / count xs)%float.

(** [np.std(a)] with the default [ddof=0]:
    [sqrt(mean(abs(a - a.mean())**2))], each mean being a [np.sum]
    divided by the number of elements. *)
Definition std (xs : list float) : float :=
  let m := mean xs in
  sqrt (mean (map (fun x => let d := abs (x - m) in d * d)%float xs)).

(** The scan of [np.argmax] on float64: a later element replaces the
    running maximum [mp] only when it is not [<= mp]; a [nan] is maximal
    and ends the scan. *)
Fixpoint argmax_scan (mp : float) (max_ind i : nat) (xs : list float) : nat :=
  match xs with
  | [] => max_ind
  | x :: tl =>
      if (x <=? mp)%float then argmax_scan mp max_ind (S i) tl
      else if is_nan x then i
      else argmax_scan x i (S i) tl
  end.

(** [np.argmax(a)]; [None] stands for the [ValueError] on an empty
    sequence. *)
Definition argmax (xs : list float) : option nat :=
  match xs with
  | [] => None
  | x :: tl => Some (if is_nan x then 0%nat else argmax_scan x 0 1 tl)
  end.

(** Two's-complement wrap-around of a 64-bit signed integer. *)
Definition wrap_int64 (z : Z) : Z := (z + 2 ^ 63) mod 2 ^ 64 - 2 ^ 63.

(** [base ** e] on int64 (numpy's default integer for a list of Python
    ints): products wrap around silently. *)
Definition power_int64 (base e : Z) : Z := wrap_int64 (base ^ e).

(** An int64 converted to float64, rounded to nearest even. *)
Definition float_of_int64 (z : Z) : float :=
  SF2Prim (binary_normalize prec emax z 0 false).

End np.

(** ** The module's variables

    The script is straight-line code over module-level names. [Env.t]
    holds the objects those names are bound to, grouped by the panel that
    binds them; a statement is a function from [Env.t] to [Env.t], and an
    in-place [append] or [sort] replaces the object of that one name. A
    name that is not bound yet holds an empty list or no index; the script
    reads no name before binding it. *)

Definition config : Type := Z * string * float.

Module Env.

Record A : Type := mkA {
  phi_by_size : list float;
  phi_std_by_size : list float;
  max_idx : option nat
}.

Record B : Type := mkB {
  phi_by_noise : list float;
  phi_std_by_noise : list float;
  optimal_idx : option nat
}.

Record C : Type := mkC {
  quantum_configs : list config;
  classical_phi : list float;
  quantum_phi : list float
}.

Record D : Type := mkD {
  n_range : list Z;
  runtime_cubic : list float;
  runtime_exponential : list float
}.

Record t : Type := mk {
  results : list ResultRecord;
  ax_a : A;
  ax_b : B;
  ax_c : C;
  ax_d : D
}.

(** The names right after [results = data['results']]. *)
Definition loaded (rs : list ResultRecord) : t :=
  mk rs (mkA [] [] None) (mkB [] [] None) (mkC [] [] []) (mkD [] [] []).

Definition set_a (a : A) (g : t) : t := mk (results g) a (ax_b g) (ax_c g) (ax_d g).
Definition set_b (b : B) (g : t) : t := mk (results g) (ax_a g) b (ax_c g) (ax_d g).
Definition set_c (c : C) (g : t) : t := mk (results g) (ax_a g) (ax_b g) c (ax_d g).
Definition set_d (d : D) (g : t) : t := mk (results g) (ax_a g) (ax_b g) (ax_c g) d.

End Env.

(** ** Panel A: Φ vs system size *)

Definition sizes : list Z := [64; 81; 243; 729].

(** The condition and the comprehension
    [[r['avg_phi'] for r in results
      if r['effective_neurons'] == size and r['noise_amplitude'] > 0]]. *)
Definition size_matches (size : Z) (r : ResultRecord) : bool :=
  (effective_neurons r =? size) && (0 <? noise_amplitude r)%float.

Definition size_results (results : list ResultRecord) (size : Z) : list float :=
  map avg_phi (filter (size_matches size) results).

(** [phi_by_size.append(m); phi_std_by_size.append(s)] *)
Definition append_by_size (m s : float) (g : Env.t) : Env.t :=
  let a := Env.ax_a g in
  Env.set_a (Env.mkA (Env.phi_by_size a ++ [m]) (Env.phi_std_by_size a ++ [s]) (Env.max_idx a)) g.

(** The body of [for size in sizes]. *)
Definition size_iteration (g : Env.t) (size : Z) : Env.t :=
  let sr := size_results (Env.results g) size in
  match sr with
  | _ :: _ => append_by_size (np.mean sr) (np.std sr) g
  | [] => append_by_size 0%float 0%float g
  end.

Definition panel_a (g : Env.t) : Env.t :=
  let g := Env.set_a (Env.mkA [] [] (Env.max_idx (Env.ax_a g))) g in
  let g := fold_left size_iteration sizes g in
  let a := Env.ax_a g in
  Env.set_a (Env.mkA (Env.phi_by_size a) (Env.phi_std_by_size a)
               (np.argmax (Env.phi_by_size a))) g.

(** ** Panel B: Φ vs noise level *)

Definition noise_levels : list string :=
  ["Baseline"; "Low"; "Medium"; "High"; "Very High"; "Extreme"; "MAXIMUM"]%string.

Definition noise_values : list float :=
  [0.0; 0.5; 1.0; 2.0; 5.0; 10.0; 20.0]%float.

(** The condition and the comprehension
    [[r['avg_phi'] for r in results if r['noise_amplitude'] == noise_amp]]. *)
Definition noise_matches (noise_amp : float) (r : ResultRecord) : bool :=
  (noise_amplitude r =? noise_amp)%float.

Definition noise_results (results : list ResultRecord) (noise_amp : float) : list float :=
  map avg_phi (filter (noise_matches noise_amp) results).

(** [phi_by_noise.append(m); phi_std_by_noise.append(s)] *)
Definition append_by_noise (m s : float) (g : Env.t) : Env.t :=
  let b := Env.ax_b g in
  Env.set_b (Env.mkB (Env.phi_by_noise b ++ [m]) (Env.phi_std_by_noise b ++ [s])
               (Env.optimal_idx b)) g.

(** The body of [for noise_amp in noise_values]: the two statistics are
    appended whatever the subset is. *)
Definition noise_iteration (g : Env.t) (noise_amp : float) : Env.t :=
  let nr := noise_results (Env.results g) noise_amp in
  append_by_noise (np.mean nr) (np.std nr) g.

(** [optimal_idx] is the bar that gets the red edge. *)
Definition panel_b (g : Env.t) : Env.t :=
  let g := Env.set_b (Env.mkB [] [] (Env.optimal_idx (Env.ax_b g))) g in
  let g := fold_left noise_iteration noise_values g in
  let b := Env.ax_b g in
  Env.set_b (Env.mkB (Env.phi_by_noise b) (Env.phi_std_by_noise b)
               (np.argmax (Env.phi_by_noise b))) g.

(** ** Panel C: quantum vs classical *)

Definition config_of (r : ResultRecord) : config :=
  (effective_neurons r, noise_level r, avg_phi r).

(** The sort key [lambda x: x[0]]. *)
Definition config_key (c : config) : Z := fst (fst c).

(** [[(r['effective_neurons'], r['noise_level'], r['avg_phi'])
      for r in results if r['noise_amplitude'] > 0]] *)
Definition quantum_configs_comprehension (results : list ResultRecord) : list config :=
  map config_of (filter (fun r => (0 <? noise_amplitude r)%float) results).

(** [list.sort(key=...)] is stable: configurations with equal keys keep
    their relative order. An element is put in front of the first one of
    the sorted tail whose key is not smaller. *)
Fixpoint insert_by_key (c : config) (l : list config) : list config :=
  match l with
  | [] => [c]
  | d :: tl =>
      if config_key c <=? config_key d then c :: d :: tl
      else d :: insert_by_key c tl
  end.

Fixpoint sort_by_key (l : list config) : list config :=
  match l with
  | [] => []
  | c :: tl => insert_by_key c (sort_by_key tl)
  end.

Definition panel_c (g : Env.t) : Env.t :=
  (* quantum_configs = [...] *)
  let g := Env.set_c (Env.mkC (quantum_configs_comprehension (Env.results g))
                        (Env.classical_phi (Env.ax_c g)) (Env.quantum_phi (Env.ax_c g))) g in
  (* quantum_configs.sort(key=lambda x: x[0]) *)
  let g := Env.set_c (Env.mkC (sort_by_key (Env.quantum_configs (Env.ax_c g)))
                        (Env.classical_phi (Env.ax_c g)) (Env.quantum_phi (Env.ax_c g))) g in
  (* classical_phi = [0.0] * len(quantum_configs) *)
  let g := Env.set_c (Env.mkC (Env.quantum_configs (Env.ax_c g))
                        (repeat 0.0%float (List.length (Env.quantum_configs (Env.ax_c g))))
                        (Env.quantum_phi (Env.ax_c g))) g in
  (* quantum_phi = [c[2] for c in quantum_configs] *)
  Env.set_c (Env.mkC (Env.quantum_configs (Env.ax_c g)) (Env.classical_phi (Env.ax_c g))
               (map (fun c : config => snd c) (Env.quantum_configs (Env.ax_c g)))) g.

(** ** Panel D: runtime scaling *)

(** [(n / 729)**3 * 7044] for one element of [n_range]: true division
    converts the int64 to float64 first. [npy_pow] is the C library's
    [pow], which numpy calls for a float64 base raised to 3.0; its
    rounding is the library's own, so it is a parameter. *)
Definition cubic_at (npy_pow : float -> float -> float) (n : Z) : float :=
  (npy_pow (np.float_of_int64 n / 729) 3 * 7044)%float.

(** [2**n * 0.001] for one element of [n_range]: the power is taken on
    int64, and only the product with 0.001 is a float64. *)
Definition exponential_at (n : Z) : float :=
  (np.float_of_int64 (np.power_int64 2 n) * 0.001)%float.

Definition n_range : list Z := [10; 50; 100; 200; 500; 1000].

Definition panel_d (npy_pow : float -> float -> float) (g : Env.t) : Env.t :=
  (* n_range = np.array([10, 50, 100, 200, 500, 1000]) *)
  let g := Env.set_d (Env.mkD n_range
                        (Env.runtime_cubic (Env.ax_d g))
                        (Env.runtime_exponential (Env.ax_d g))) g in
  (* runtime_cubic = (n_range / 729)**3 * 7044 *)
  let g := Env.set_d (Env.mkD (Env.n_range (Env.ax_d g))
                        (map (cubic_at npy_pow) (Env.n_range (Env.ax_d g)))
                        (Env.runtime_exponential (Env.ax_d g))) g in
  (* runtime_exponential = 2**n_range * 0.001 *)
  Env.set_d (Env.mkD (Env.n_range (Env.ax_d g)) (Env.runtime_cubic (Env.ax_d g))
               (map exponential_at (Env.n_range (Env.ax_d g)))) g.

(** ** Figure 1 *)

Definition figure1 (npy_pow : float -> float -> float) (g : Env.t) : Env.t :=
  panel_d npy_pow (panel_c (panel_b (panel_a g))).

(** The variables by name, as functions of the loaded collection. *)
Definition phi_by_size (results : list ResultRecord) : list float :=
  Env.phi_by_size (Env.ax_a (panel_a (Env.loaded results))).

Definition phi_std_by_size (results : list ResultRecord) : list float :=
  Env.phi_std_by_size (Env.ax_a (panel_a (Env.loaded results))).

Definition max_idx (results : list ResultRecord) : option nat :=
  Env.max_idx (Env.ax_a (panel_a (Env.loaded results))).

Definition phi_by_noise (results : list ResultRecord) : list float :=
  Env.phi_by_noise (Env.ax_b (panel_b (Env.loaded results))).

Definition phi_std_by_noise (results : list ResultRecord) : list float :=
  Env.phi_std_by_noise (Env.ax_b (panel_b (Env.loaded results))).

Definition optimal_idx (results : list ResultRecord) : option nat :=
  Env.optimal_idx (Env.ax_b (panel_b (Env.loaded results))).

Definition quantum_configs (results : list ResultRecord) : list config :=
  Env.quantum_configs (Env.ax_c (panel_c (Env.loaded results))).

Definition classical_phi (results : list ResultRecord) : list float :=
  Env.classical_phi (Env.ax_c (panel_c (Env.loaded results))).

Definition quantum_phi (results : list ResultRecord) : list float :=
  Env.quantum_phi (Env.ax_c (panel_c (Env.loaded results))).

(** ** What each panel hands to the plotting calls *)

Inductive Panel : Type := PanelA | PanelB | PanelC | PanelD.

(** The y-data of the panel's [errorbar], [bar], [loglog] and [plot]
    calls, in call order. *)
Definition plotted_series (p : Panel) (g : Env.t) : list (list float) :=
  match p with
  | PanelA => [Env.phi_by_size (Env.ax_a g)]
  | PanelB => [Env.phi_by_noise (Env.ax_b g)]
  | PanelC => [Env.classical_phi (Env.ax_c g); Env.quantum_phi (Env.ax_c g)]
  | PanelD => [Env.runtime_cubic (Env.ax_d g); Env.runtime_exponential (Env.ax_d g);
               [7044%float]]
  end.

(** The series of a panel once Figure 1 is drawn from a loaded collection. *)
Definition chart (npy_pow : float -> float -> float) (p : Panel)
    (results : list ResultRecord) : list (list float) :=
  plotted_series p (figure1 npy_pow (Env.loaded results)).

(** A panel draws a reference curve when one of its series is the same
    whatever the loaded records are. *)
Definition draws_reference_curve (npy_pow : float -> float -> float) (p : Panel) : Prop :=
  exists (i : nat) (s : list float),
    forall results, nth_error (chart npy_pow p results) i = Some s.

(** A stand-in for [pow(x, 3.0)], for statements that need a closed term. *)
Definition cube (x y : float) : float := (x * x * x)%float.

(** ** The script, top to bottom *)

(** The exceptions the modelled statements can raise. *)
Inductive exn : Type :=
  | FileNotFoundError (filename : string)
  | PermissionError (filename : string)
  | JSONDecodeError
  | KeyError (key : string).

(** What [json.load] returns: a dict whose keys may be absent. *)
Record Document : Type := mkDocument {
  doc_results : option (list ResultRecord);
  max_phi_achieved : option float;
  runtime_seconds : option float;
  system : option string;
  best_config : option string
}.

Inductive InputFile : Type :=
  | Missing
  | Unreadable
  | NotJSON
  | Parsed (data : Document).

Inductive Figure : Type :=
  | SimulatedResults (g : Env.t)
  | HierarchicalStructure
  | TopologicalInvariants.

Inductive pyval : Type :=
  | VFloat (x : float)
  | VInt (n : Z)
  | VStr (s : string).

(** The world outside the interpreter: the input file, whether the
    figures directory exists, the images saved so far and the lines
    printed so far (latest first). *)
Record World : Type := mkWorld {
  input_file : InputFile;
  figures_dir_exists : bool;
  saved : list (string * Figure);
  stdout : list (string * list pyval)
}.

Inductive Outcome (A : Type) : Type :=
  | Returned (a : A) (w : World)
  | Raised (e : exn) (w : World).
Arguments Returned {A} a w.
Arguments Raised {A} e w.

(** A statement: it returns or raises, and leaves a world behind. There
    is no handler anywhere in the script, so there is no [try]. *)
Definition Py (A : Type) : Type := World -> Outcome A.

Definition ret {A : Type} (a : A) : Py A := fun w => Returned a w.

Definition raise {A : Type} (e : exn) : Py A := fun w => Raised e w.

Definition bind {A B : Type} (c : Py A) (k : A -> Py B) : Py B :=
  fun w => match c w with
           | Returned a w' => k a w'
           | Raised e w' => Raised e w'
           end.

Notation "x <- c ;; k" := (bind c (fun x => k))
  (at level 61, c at next level, right associativity).
Notation "c ;; k" := (bind c (fun _ => k))
  (at level 61, right associativity).

Definition input_path : string := "consciousness_maximum_entanglement_results.json".

Definition figures_dir : string := "/Users/yatrogenesis/Downloads/consciousness_paper/figures/".

(** [with open(input_path, 'r') as f: data = json.load(f)] *)
Definition load : Py Document :=
  fun w => match input_file w with
           | Missing => Raised (FileNotFoundError input_path) w
           | Unreadable => Raised (PermissionError input_path) w
           | NotJSON => Raised JSONDecodeError w
           | Parsed data => Returned data w
           end.

(** [data[key]] *)
Definition subscript {A : Type} (key : string) (field : option A) : Py A :=
  match field with
  | Some v => ret v
  | None => raise (KeyError key)
  end.

(** [print(f"...")]: the text and the values formatted into it. *)
Definition print (text : string) (values : list pyval) : Py unit :=
  fun w => Returned tt
    (mkWorld (input_file w) (figures_dir_exists w) (saved w) ((text, values) :: stdout w)).

(** [plt.savefig(figures_dir + name, ...)]: the file cannot be created in
    a directory that does not exist. *)
Definition savefig (name : string) (fig : Figure) : Py unit :=
  fun w =>
    let path := (figures_dir ++ name)%string in
    if figures_dir_exists w
    then Returned tt
           (mkWorld (input_file w) true ((path, fig) :: saved w) (stdout w))
    else Raised (FileNotFoundError path) w.

Definition script (npy_pow : float -> float -> float) : Py unit :=
  data <- load ;;
  results <- subscript "results" (doc_results data) ;;
  print "Generating Figure 1: simulated_results.png (4 panels)..." [] ;;
  let g := figure1 npy_pow (Env.loaded results) in
  savefig "simulated_results.png" (SimulatedResults g) ;;
  print "Figure 1 saved: simulated_results.png" [] ;;
  print "Generating Figure 2: hierarchical_structure.png..." [] ;;
  savefig "hierarchical_structure.png" HierarchicalStructure ;;
  print "Figure 2 saved: hierarchical_structure.png" [] ;;
  print "Generating Figure 3: topological_invariants.png..." [] ;;
  savefig "topological_invariants.png" TopologicalInvariants ;;
  print "Figure 3 saved: topological_invariants.png" [] ;;
  print "SUCCESS: All three figures generated for IEEE paper!" [] ;;
  print "Files created:" [] ;;
  max_phi <- subscript "max_phi_achieved" (max_phi_achieved data) ;;
  print "  1. simulated_results.png (4 panels, real data, max=%.4f bits)" [VFloat max_phi] ;;
  print "  2. hierarchical_structure.png (conceptual diagram)" [] ;;
  print "  3. topological_invariants.png (TDA visualization)" [] ;;
  print "Experimental details:" [] ;;
  print "  - Configurations tested: %d" [VInt (Z.of_nat (List.length g.(Env.results)))] ;;
  seconds <- subscript "runtime_seconds" (runtime_seconds data) ;;
  print "  - Runtime: %.1f seconds (%.2f hours)" [VFloat seconds; VFloat (seconds / 3600)] ;;
  sys <- subscript "system" (system data) ;;
  print "  - System: %s" [VStr sys] ;;
  best <- subscript "best_config" (best_config data) ;;
  print "  - Best configuration: %s" [VStr best] ;;
  print "Next step: Update consciousness_paper.tex with these figures and real results." [].

(** The interpreter's exit status. *)
Definition exit_code {A : Type} (o : Outcome A) : Z :=
  match o with
  | Returned _ _ => 0
  | Raised _ _ => 1
  end.

Definition world_after {A : Type} (o : Outcome A) : World :=
  match o with
  | Returned _ w => w
  | Raised _ w => w
  end.

(** ** Notions the statements below use *)

(** What the size loop appends for one key, and what the noise loop
    appends for one key. *)
Definition size_summary (results : list ResultRecord) (size : Z) : float * float :=
  match size_results results size with
  | _ :: _ => (np.mean (size_results results size), np.std (size_results results size))
  | [] => (0%float, 0%float)
  end.

Definition noise_summary (results : list ResultRecord) (noise_amp : float) : float * float :=
  (np.mean (noise_results results noise_amp), np.std (noise_results results noise_amp)).

(** [i] is the first position of a largest element of [xs]. *)
Definition first_maximum (xs : list float) (i : nat) : Prop :=
  exists m, nth_error xs i = Some m /\
    (forall j y, nth_error xs j = Some y -> (y <=? m)%float = true) /\
    (forall j y, (j < i)%nat -> nth_error xs j = Some y -> (y <? m)%float = true).



(** [adds_up xs s]: [s] is obtained from the values [xs] by binary64
    additions alone, each value entering exactly once, whatever the
    order and the grouping of the additions. *)
Inductive adds_up : list float -> float -> Prop :=
  | adds_one x : adds_up [x] x
  | adds_two l1 l2 a b :
      adds_up l1 a -> adds_up l2 b -> adds_up (l1 ++ l2) (a + b)%float
  | adds_perm l l' a : Permutation l l' -> adds_up l a -> adds_up l' a.

(** The order of the sort keys. *)
Definition key_le (c d : config) : Prop := config_key c <= config_key d.


(** The errors of the load, lines 28 to 31, and of a [savefig]. *)
Definition DataLoadError (e : exn) : Prop :=
  e = FileNotFoundError input_path \/ e = PermissionError input_path \/
  e = JSONDecodeError \/ e = KeyError "results".

Definition WriteError (e : exn) : Prop :=
  exists name, e = FileNotFoundError (figures_dir ++ name)%string.

(** The input can be loaded: the file parses and has the key [results]. *)
Definition loadable (w : World) : option (Document * list ResultRecord) :=
  match input_file w with
  | Parsed data =>
      match doc_results data with
      | Some results => Some (data, results)
      | None => None
      end
  | _ => None
  end.

(** ** More of the script *)

(** The bar colours of panel B. *)
Definition colors : list string :=
  ["gray"; "#A8DADC"; "#457B9D"; "#1D3557"; "#E63946"; "#F77F00"; "#8B0000"]%string.

(** The x positions of the bars of panel B, [range(len(noise_levels))]. *)
Definition bar_positions : list nat := seq 0 (List.length noise_levels).

(** The keys of the closing report, in the order the script reads them. *)
Definition first_missing_key (data : Document) : option string :=
  match max_phi_achieved data, runtime_seconds data, system data, best_config data with
  | None, _, _, _ => Some "max_phi_achieved"%string
  | Some _, None, _, _ => Some "runtime_seconds"%string
  | Some _, Some _, None, _ => Some "system"%string
  | Some _, Some _, Some _, None => Some "best_config"%string
  | Some _, Some _, Some _, Some _ => None
  end.

(** The three images, latest first, as [savefig] records them. *)
Definition three_images (g : Env.t) : list (string * Figure) :=
  [((figures_dir ++ "topological_invariants.png")%string, TopologicalInvariants);
   ((figures_dir ++ "hierarchical_structure.png")%string, HierarchicalStructure);
   ((figures_dir ++ "simulated_results.png")%string, SimulatedResults g)].

(** The records with a declared size, and those with a declared noise
    amplitude. *)
Definition has_declared_size (r : ResultRecord) : bool :=
  existsb (fun size => effective_neurons r =? size) sizes.

Definition has_declared_noise (r : ResultRecord) : bool :=
  existsb (fun noise_amp => (noise_amplitude r =? noise_amp)%float) noise_values.

(** A binary64 that is a zero or a finite number. *)
Definition SFfinite (x : spec_float) : Prop :=
  match x with
  | S754_zero _ | S754_finite _ _ _ => True
  | _ => False
  end.

(** A binary64 that is not negative: a zero, a positive number or +inf. *)
Definition SFnonneg (x : spec_float) : Prop :=
  match x with
  | S754_zero _ | S754_infinity false | S754_finite false _ _ => True
  | _ => False
  end.

(** ** Figure 3, panel B: the simplicial complex *)

Definition point : Type := float * float.

(** [np.linalg.norm(p - q)] for two rows of [points]: the components are
    subtracted, and the norm is the square root of the dot product of
    the difference with itself (two products and a sum). *)
Definition norm_of_difference (p q : point) : float :=
  let dx := (fst p - fst q)%float in
  let dy := (snd p - snd q)%float in
  sqrt (dx * dx + dy * dy).

Definition threshold : float := 0.8%float.

(** [pts = points[simplex]]: the three vertices of one triangle of the
    triangulation, and [pts[i]]. *)
Definition triangle : Type := point * point * point.

Definition vertex (pts : triangle) (i : nat) : point :=
  match i with
  | 0%nat => fst (fst pts)
  | 1%nat => snd (fst pts)
  | _ => snd pts
  end.

(** [range(a, b)] *)
Definition range (a b : nat) : list nat := seq a (b - a).

(** [for j in range(i+1, 3)]: the first distance above the threshold
    clears the flag and leaves the loop. *)
Fixpoint inner_loop (pts : triangle) (i : nat) (js : list nat) (edges_ok : bool) : bool :=
  match js with
  | [] => edges_ok
  | j :: js' =>
      let dist := norm_of_difference (vertex pts i) (vertex pts j) in
      if (threshold <? dist)%float then false
      else inner_loop pts i js' edges_ok
  end.

(** [for i in range(3)], left as soon as the flag is cleared. *)
Fixpoint outer_loop (pts : triangle) (indices : list nat) (edges_ok : bool) : bool :=
  match indices with
  | [] => edges_ok
  | i :: indices' =>
      let edges_ok := inner_loop pts i (range (i + 1) 3) edges_ok in
      if negb edges_ok then edges_ok
      else outer_loop pts indices' edges_ok
  end.

Definition edges_ok (pts : triangle) : bool := outer_loop pts (range 0 3) true.

(** The triangles that get a [plt.Polygon] patch. *)
Definition shaded_triangles (simplices : list triangle) : list triangle :=
  filter edges_ok simplices.

(** The second loop: side i of a triangle joins vertex i to vertex
    (i+1)%3 and is plotted when it is not longer than the threshold. *)
Definition side_drawn (pts : triangle) (i : nat) : bool :=
  (norm_of_difference (vertex pts i) (vertex pts ((i + 1) mod 3)) <=? threshold)%float.

Definition drawn_sides (simplices : list triangle) : list (point * point) :=
  flat_map
    (fun pts =>
       flat_map
         (fun i => if side_drawn pts i
                   then [(vertex pts i, vertex pts ((i + 1) mod 3))]
                   else [])
         (range 0 3))
    simplices.

(** A point of finite coordinates. *)
Definition finite_point (p : point) : Prop :=
  is_finite (fst p) = true /\ is_finite (snd p) = true.

(** * Properties *)

(** ** Binary64 facts *)

Lemma Prim2SF_zero : Prim2SF 0%float = S754_zero false.
Proof. reflexivity. Qed.

Lemma eqb_zero_not_positive (x : float) :
  (x =? 0)%float = true -> (0 <? x)%float = false.
Proof.
  rewrite eqb_spec, ltb_spec, Prim2SF_zero.
  unfold SFeqb, SFltb, SFcompare.
  destruct (Prim2SF x) as [s | s | | s m e]; try destruct s; congruence.
Qed.

(** The order of binary64 values that are not nan is a total preorder. *)
Lemma SFcompare_refl x : x <> S754_nan -> SFcompare x x = Some Eq.
Proof.
  destruct x as [[]|[]| |[] m e]; intros H; try reflexivity; try congruence;
    simpl; rewrite Z.compare_refl; change (Pos.compare_cont Eq m m) with (Pos.compare m m);
    rewrite Pos.compare_refl; reflexivity.
Qed.

Lemma SFleb_total x y :
  x <> S754_nan -> y <> S754_nan -> SFleb x y = false -> SFltb y x = true.
Proof.
  unfold SFleb, SFltb.
  destruct x as [[]|[]| |[] mx ex], y as [[]|[]| |[] my ey]; intros Hx Hy;
    try congruence; try reflexivity; simpl; try discriminate.
  - rewrite (Z.compare_antisym ex ey).
    change (Pos.compare_cont Eq mx my) with (Pos.compare mx my).
    change (Pos.compare_cont Eq my mx) with (Pos.compare my mx).
    rewrite (Pos.compare_antisym mx my).
    destruct (ex ?= ey); simpl; try discriminate; try reflexivity.
    destruct (mx ?= my)%positive; simpl; try discriminate; reflexivity.
  - rewrite (Z.compare_antisym ex ey).
    change (Pos.compare_cont Eq mx my) with (Pos.compare mx my).
    change (Pos.compare_cont Eq my mx) with (Pos.compare my mx).
    rewrite (Pos.compare_antisym mx my).
    destruct (ex ?= ey); simpl; try discriminate; try reflexivity.
    destruct (mx ?= my)%positive; simpl; try discriminate; reflexivity.
Qed.

Ltac cmp_cases :=
  repeat match goal with
  | |- context [Z.compare ?a ?b] => destruct (Z.compare_spec a b); subst
  | H : context [Z.compare ?a ?b] |- _ => destruct (Z.compare_spec a b); subst
  | |- context [Pos.compare ?a ?b] => destruct (Pos.compare_spec a b); subst
  | H : context [Pos.compare ?a ?b] |- _ => destruct (Pos.compare_spec a b); subst
  end.

Lemma SFleb_trans x y z : SFleb x y = true -> SFleb y z = true -> SFleb x z = true.
Proof.
  unfold SFleb.
  destruct x as [[]|[]| |[] mx ex], y as [[]|[]| |[] my ey], z as [[]|[]| |[] mz ez];
    simpl; try discriminate; try reflexivity;
    change (Pos.compare_cont Eq) with Pos.compare;
    intros H1 H2; cmp_cases; simpl in *; try discriminate; try reflexivity; try lia.
Qed.

Lemma SFltb_leb_trans x y z : SFltb x y = true -> SFleb y z = true -> SFltb x z = true.
Proof.
  unfold SFleb, SFltb.
  destruct x as [[]|[]| |[] mx ex], y as [[]|[]| |[] my ey], z as [[]|[]| |[] mz ez];
    simpl; try discriminate; try reflexivity;
    change (Pos.compare_cont Eq) with Pos.compare;
    intros H1 H2; cmp_cases; simpl in *; try discriminate; try reflexivity; try lia.
Qed.

Lemma SFleb_ltb_trans x y z : SFleb x y = true -> SFltb y z = true -> SFltb x z = true.
Proof.
  unfold SFleb, SFltb.
  destruct x as [[]|[]| |[] mx ex], y as [[]|[]| |[] my ey], z as [[]|[]| |[] mz ez];
    simpl; try discriminate; try reflexivity;
    change (Pos.compare_cont Eq) with Pos.compare;
    intros H1 H2; cmp_cases; simpl in *; try discriminate; try reflexivity; try lia.
Qed.

Lemma not_nan_spec x : is_nan x = false -> Prim2SF x <> S754_nan.
Proof.
  unfold is_nan. rewrite eqb_spec. intros H E. rewrite E in H. discriminate H.
Qed.

Lemma leb_refl x : is_nan x = false -> (x <=? x)%float = true.
Proof.
  intros H. rewrite leb_spec. unfold SFleb.
  rewrite (SFcompare_refl _ (not_nan_spec x H)). reflexivity.
Qed.

Lemma leb_total x y :
  is_nan x = false -> is_nan y = false -> (x <=? y)%float = false -> (y <? x)%float = true.
Proof.
  rewrite leb_spec, ltb_spec. intros Hx Hy.
  apply SFleb_total; apply not_nan_spec; assumption.
Qed.

Lemma ltb_leb x y : (x <? y)%float = true -> (x <=? y)%float = true.
Proof.
  rewrite leb_spec, ltb_spec. unfold SFltb, SFleb.
  destruct (SFcompare (Prim2SF x) (Prim2SF y)) as [[]|]; congruence.
Qed.

Lemma leb_trans x y z :
  (x <=? y)%float = true -> (y <=? z)%float = true -> (x <=? z)%float = true.
Proof. rewrite !leb_spec. apply SFleb_trans. Qed.

Lemma ltb_leb_trans x y z :
  (x <? y)%float = true -> (y <=? z)%float = true -> (x <? z)%float = true.
Proof. rewrite !leb_spec, !ltb_spec. apply SFltb_leb_trans. Qed.

Lemma leb_ltb_trans x y z :
  (x <=? y)%float = true -> (y <? z)%float = true -> (x <? z)%float = true.
Proof. rewrite !leb_spec, !ltb_spec. apply SFleb_ltb_trans. Qed.


Lemma bounded_cases m e :
  bounded prec emax m e = true ->
  e <= 971 /\ ((e = -1074 /\ Zpos (digits2_pos m) <= 53) \/
               (-1074 < e /\ Zpos (digits2_pos m) = 53)).
Proof.
  unfold bounded, canonical_mantissa, fexp, emin, prec, emax.
  intros H. apply andb_prop in H. destruct H as [H1 H2].
  apply Z.eqb_eq in H1. apply Z.leb_le in H2. lia.
Qed.




Lemma shr_fexp_keep m e :
  fexp prec emax (Zpos (digits2_pos m) + e) = e ->
  shr_fexp prec emax (Zpos m) e loc_Exact =
  ({| shr_m := Zpos m; shr_r := false; shr_s := false |}, e).
Proof.
  intros H. unfold shr_fexp. change (Zdigits2 (Zpos m)) with (Zpos (digits2_pos m)).
  rewrite H, Z.sub_diag. reflexivity.
Qed.


Lemma round_finish s m e :
  fexp prec emax (Zpos (digits2_pos m) + e) = e -> e <= 971 ->
  (let '(mrs'', e'') :=
     shr_fexp prec emax
       (round_nearest_even (shr_m {| shr_m := Zpos m; shr_r := false; shr_s := false |})
          (loc_of_shr_record {| shr_m := Zpos m; shr_r := false; shr_s := false |}))
       e loc_Exact in
   match shr_m mrs'' with
   | 0 => S754_zero s
   | Zpos m0 => if e'' <=? emax - prec then S754_finite s m0 e'' else S754_infinity s
   | Zneg _ => S754_nan
   end) = S754_finite s m e.
Proof.
  intros H Hle. cbn [shr_m loc_of_shr_record round_nearest_even].
  rewrite shr_fexp_keep by assumption. cbn [shr_m].
  replace (e <=? emax - prec) with true by (symmetry; apply Z.leb_le; unfold emax, prec; lia).
  reflexivity.
Qed.

Lemma round_canonical s m e :
  bounded prec emax m e = true ->
  binary_round_aux prec emax s (Zpos m) e loc_Exact = S754_finite s m e.
Proof.
  intros Hb. pose proof (bounded_cases _ _ Hb) as [Hle Hc].
  assert (Hf : fexp prec emax (Zpos (digits2_pos m) + e) = e)
    by (unfold fexp, emin, prec, emax; lia).
  unfold binary_round_aux. rewrite shr_fexp_keep by assumption.
  apply round_finish; assumption.
Qed.



Lemma finite_cases x :
  is_finite x = true ->
  (exists s, Prim2SF x = S754_zero s) \/
  (exists s m e, Prim2SF x = S754_finite s m e /\ bounded prec emax m e = true).
Proof.
  unfold is_finite, is_nan, is_infinity.
  rewrite !eqb_spec, abs_spec.
  pose proof (Prim2SF_valid x) as Hv.
  change (Prim2SF infinity) with (S754_infinity false).
  destruct (Prim2SF x) as [s | s | | s m e].
  - intros _. left. eauto.
  - destruct s; discriminate.
  - discriminate.
  - intros _. right. eauto 6.
Qed.

(** Starting a sum from -0.0 changes nothing: -0.0 + x is x. *)
Lemma neg_zero_add x : (neg_zero + x)%float = x.
Proof.
  apply Prim2SF_inj. rewrite add_spec.
  change (Prim2SF neg_zero) with (S754_zero true).
  destruct (Prim2SF x) as [[|] | [|] | | s m e]; reflexivity.
Qed.




(** ** numpy's summation *)

Lemma pairwise_sum_small fuel xs :
  (List.length xs < 8)%nat -> np.pairwise_sum fuel xs = np.sum_sequential xs.
Proof.
  intros H. apply Nat.ltb_lt in H.
  destruct fuel; cbn [np.pairwise_sum]; rewrite H; reflexivity.
Qed.

Lemma split_lengths n :
  (128 < n)%nat ->
  (0 < n / 2 - (n / 2) mod 8 < n)%nat.
Proof.
  intros H.
  pose proof (Nat.div_mod_eq n 2) as H1.
  pose proof (Nat.mod_upper_bound n 2 ltac:(discriminate)) as H2.
  pose proof (Nat.mod_upper_bound (n / 2) 8 ltac:(discriminate)) as H3.
  lia.
Qed.

(** The length of the array is fuel enough: more changes nothing. *)
Lemma pairwise_sum_fuel fuel1 : forall fuel2 xs,
  (List.length xs <= fuel1)%nat -> (List.length xs <= fuel2)%nat ->
  np.pairwise_sum fuel1 xs = np.pairwise_sum fuel2 xs.
Proof.
  induction fuel1 as [|fuel1 IH]; intros fuel2 xs H1 H2.
  - rewrite !pairwise_sum_small by lia. reflexivity.
  - destruct fuel2 as [|fuel2].
    + rewrite !pairwise_sum_small by lia. reflexivity.
    + cbn [np.pairwise_sum].
      destruct (List.length xs <? 8)%nat; [reflexivity|].
      destruct (List.length xs <=? 128)%nat eqn:E; [reflexivity|].
      apply Nat.leb_gt in E. pose proof (split_lengths _ E) as Hs.
      f_equal; apply IH; rewrite ?length_firstn, ?length_skipn; lia.
Qed.

Lemma sum_sequential_cons x tl :
  np.sum_sequential (x :: tl) = fold_left PrimFloat.add tl x.
Proof. unfold np.sum_sequential. cbn [fold_left]. now rewrite neg_zero_add. Qed.





(** *** Every value enters the sum once *)

Lemma adds_up_fold tl : forall l acc,
  adds_up l acc -> adds_up (l ++ tl) (fold_left PrimFloat.add tl acc).
Proof.
  induction tl as [|x tl IH]; intros l acc H; cbn [fold_left].
  - rewrite app_nil_r. exact H.
  - replace (l ++ x :: tl) with ((l ++ [x]) ++ tl) by (rewrite <- app_assoc; reflexivity).
    apply IH. apply adds_two; [exact H | apply adds_one].
Qed.

Lemma sum_sequential_adds_up xs : xs <> [] -> adds_up xs (np.sum_sequential xs).
Proof.
  destruct xs as [|x tl]; [congruence|]. intros _. rewrite sum_sequential_cons.
  apply (adds_up_fold tl [x] x), adds_one.
Qed.

(** One block added to the accumulators, position by position. *)
Lemma accumulate_block lls rs :
  Forall2 adds_up lls rs -> forall block,
  List.length block = List.length rs ->
  exists lls',
    Forall2 adds_up lls' (map (fun p => (fst p + snd p)%float) (combine rs block)) /\
    Permutation (List.concat lls') (List.concat lls ++ block).
Proof.
  induction 1 as [|l r lls rs Hl Hrest IH]; intros block Hlen.
  - destruct block; [|discriminate]. exists []. split; [constructor | apply perm_nil].
  - destruct block as [|a block]; [discriminate|].
    destruct (IH block ltac:(cbn in Hlen; lia)) as (lls' & Hf & Hp).
    exists ((l ++ [a]) :: lls'). split.
    + cbn [combine map fst snd]. constructor; [|exact Hf].
      apply adds_two; [exact Hl | apply adds_one].
    + cbn [List.concat]. rewrite <- !app_assoc. apply Permutation_app_head.
      cbn [app]. apply Permutation_cons_app, Hp.
Qed.

Lemma combine8_adds_up lls r0 r1 r2 r3 r4 r5 r6 r7 :
  Forall2 adds_up lls [r0; r1; r2; r3; r4; r5; r6; r7] ->
  adds_up (List.concat lls) (np.combine8 (r0, r1, r2, r3, r4, r5, r6, r7)).
Proof.
  intros H.
  repeat match goal with
         | H : Forall2 _ _ (_ :: _) |- _ => inversion H; subst; clear H
         | H : Forall2 _ _ [] |- _ => inversion H; subst; clear H
         end.
  cbn [List.concat np.combine8]. rewrite app_nil_r.
  match goal with
  | |- adds_up (?l0 ++ ?l1 ++ ?l2 ++ ?l3 ++ ?l4 ++ ?l5 ++ ?l6 ++ ?l7) _ =>
      replace (l0 ++ l1 ++ l2 ++ l3 ++ l4 ++ l5 ++ l6 ++ l7)
        with (((l0 ++ l1) ++ (l2 ++ l3)) ++ ((l4 ++ l5) ++ (l6 ++ l7)))
        by (rewrite <- !app_assoc; reflexivity)
  end.
  repeat apply adds_two; assumption.
Qed.

Lemma add_blocks_adds_up n : forall xs r0 r1 r2 r3 r4 r5 r6 r7 lls ls,
  (List.length xs <= n)%nat ->
  Forall2 adds_up lls [r0; r1; r2; r3; r4; r5; r6; r7] ->
  Permutation (List.concat lls) ls ->
  adds_up (ls ++ xs)
    (let '(r, rest) := np.add_blocks (r0, r1, r2, r3, r4, r5, r6, r7) xs in
     fold_left PrimFloat.add rest (np.combine8 r)).
Proof.
  induction n as [|n IH]; intros xs r0 r1 r2 r3 r4 r5 r6 r7 lls ls Hlen Hf Hp;
    (destruct xs as [|a0 [|a1 [|a2 [|a3 [|a4 [|a5 [|a6 [|a7 tl]]]]]]]];
     [apply adds_up_fold; apply (adds_perm _ _ _ Hp); apply combine8_adds_up, Hf ..|]).
  - cbn in Hlen. lia.
  - cbn [np.add_blocks].
    destruct (accumulate_block _ _ Hf [a0; a1; a2; a3; a4; a5; a6; a7] eq_refl)
      as (lls' & Hf' & Hp').
    cbn [combine map fst snd] in Hf'.
    replace (ls ++ a0 :: a1 :: a2 :: a3 :: a4 :: a5 :: a6 :: a7 :: tl)
      with ((ls ++ [a0; a1; a2; a3; a4; a5; a6; a7]) ++ tl)
      by (rewrite <- app_assoc; reflexivity).
    apply (IH tl _ _ _ _ _ _ _ _ lls'); [cbn in Hlen; lia | exact Hf' |].
    apply (perm_trans Hp'). apply Permutation_app_tail, Hp.
Qed.

Lemma sum_unrolled_adds_up xs : xs <> [] -> adds_up xs (np.sum_unrolled xs).
Proof.
  intros Hne.
  destruct xs as [|a0 [|a1 [|a2 [|a3 [|a4 [|a5 [|a6 [|a7 tl]]]]]]]];
    [congruence | apply sum_sequential_adds_up; discriminate ..|].
  apply (add_blocks_adds_up (List.length tl) tl a0 a1 a2 a3 a4 a5 a6 a7
           [[a0]; [a1]; [a2]; [a3]; [a4]; [a5]; [a6]; [a7]]
           [a0; a1; a2; a3; a4; a5; a6; a7]).
  - apply Nat.le_refl.
  - repeat constructor.
  - apply Permutation_refl.
Qed.

Lemma pairwise_sum_adds_up fuel : forall xs,
  xs <> [] -> adds_up xs (np.pairwise_sum fuel xs).
Proof.
  induction fuel as [|fuel IH]; intros xs Hne; cbn [np.pairwise_sum];
    (destruct (List.length xs <? 8)%nat; [apply sum_sequential_adds_up, Hne|]);
    (destruct (List.length xs <=? 128)%nat eqn:E; [apply sum_unrolled_adds_up, Hne|]).
  - apply sum_unrolled_adds_up, Hne.
  - apply Nat.leb_gt in E. pose proof (split_lengths _ E) as Hs.
    set (n2 := (List.length xs / 2 - (List.length xs / 2) mod 8)%nat) in *.
    apply (adds_perm (firstn n2 xs ++ skipn n2 xs)).
    + rewrite firstn_skipn. apply Permutation_refl.
    + apply adds_two; apply IH; intros E0; apply (f_equal (@List.length float)) in E0;
        rewrite ?length_firstn, ?length_skipn in E0; cbn [List.length] in E0; lia.
Qed.

(** [np.sum] adds up exactly the values it is given. *)
Lemma sum_adds_up xs : xs <> [] -> adds_up xs (np.sum xs).
Proof.
  intros Hne. unfold np.sum. destruct xs as [|x tl]; [congruence|].
  rewrite neg_zero_add. apply pairwise_sum_adds_up, Hne.
Qed.

(** What every value has and addition keeps, the sum has. *)
Lemma adds_up_closed (P : float -> Prop) :
  (forall a b, P a -> P b -> P (a + b)%float) ->
  forall l s, adds_up l s -> Forall P l -> P s.
Proof.
  intros Hadd l s H. induction H as [x|l1 l2 a b H1 IH1 H2 IH2|l l' a Hp H IH]; intros Hall.
  - inversion Hall; assumption.
  - apply Forall_app in Hall as (Ha & Hb). apply Hadd; auto.
  - apply IH. apply (Permutation_Forall (Permutation_sym Hp)), Hall.
Qed.

(** ** The statements leave [results] alone *)

Lemma size_iteration_results g size :
  Env.results (size_iteration g size) = Env.results g.
Proof. unfold size_iteration. destruct (size_results _ _); reflexivity. Qed.

Lemma noise_iteration_results g noise_amp :
  Env.results (noise_iteration g noise_amp) = Env.results g.
Proof. reflexivity. Qed.

Lemma fold_results {K : Type} (step : Env.t -> K -> Env.t) :
  (forall g k, Env.results (step g k) = Env.results g) ->
  forall keys g, Env.results (fold_left step keys g) = Env.results g.
Proof.
  intros Hstep keys. induction keys as [|k keys IH]; intros g; simpl.
  - reflexivity.
  - rewrite IH. apply Hstep.
Qed.

Lemma panel_a_results g : Env.results (panel_a g) = Env.results g.
Proof.
  unfold panel_a. cbv zeta. cbn [Env.set_a Env.results].
  rewrite (fold_results size_iteration size_iteration_results). reflexivity.
Qed.

Lemma panel_b_results g : Env.results (panel_b g) = Env.results g.
Proof.
  unfold panel_b. cbv zeta. cbn [Env.set_b Env.results].
  rewrite (fold_results noise_iteration noise_iteration_results). reflexivity.
Qed.

Lemma panel_c_results g : Env.results (panel_c g) = Env.results g.
Proof. reflexivity. Qed.

Lemma panel_d_results npy_pow g : Env.results (panel_d npy_pow g) = Env.results g.
Proof. reflexivity. Qed.

Lemma figure1_results npy_pow g : Env.results (figure1 npy_pow g) = Env.results g.
Proof.
  unfold figure1.
  rewrite panel_d_results, panel_c_results, panel_b_results, panel_a_results.
  reflexivity.
Qed.

(** ** The two loops as maps over their key sequences *)

Lemma size_iteration_summary g size :
  size_iteration g size =
  append_by_size (fst (size_summary (Env.results g) size))
    (snd (size_summary (Env.results g) size)) g.
Proof.
  unfold size_iteration, size_summary.
  destruct (size_results (Env.results g) size); reflexivity.
Qed.

Lemma size_fold keys : forall g,
  fold_left size_iteration keys g =
  Env.set_a
    (Env.mkA
       (Env.phi_by_size (Env.ax_a g) ++ map (fun k => fst (size_summary (Env.results g) k)) keys)
       (Env.phi_std_by_size (Env.ax_a g) ++ map (fun k => snd (size_summary (Env.results g) k)) keys)
       (Env.max_idx (Env.ax_a g))) g.
Proof.
  induction keys as [|k keys IH]; intros g; simpl.
  - rewrite !app_nil_r. destruct g as [rs [pa ps mi] b c d]. reflexivity.
  - rewrite IH, size_iteration_summary. unfold append_by_size, Env.set_a.
    cbn [Env.results Env.ax_a Env.ax_b Env.ax_c Env.ax_d
         Env.phi_by_size Env.phi_std_by_size Env.max_idx].
    rewrite <- !app_assoc. reflexivity.
Qed.

Lemma noise_fold keys : forall g,
  fold_left noise_iteration keys g =
  Env.set_b
    (Env.mkB
       (Env.phi_by_noise (Env.ax_b g) ++ map (fun k => fst (noise_summary (Env.results g) k)) keys)
       (Env.phi_std_by_noise (Env.ax_b g) ++ map (fun k => snd (noise_summary (Env.results g) k)) keys)
       (Env.optimal_idx (Env.ax_b g))) g.
Proof.
  induction keys as [|k keys IH]; intros g; simpl.
  - rewrite !app_nil_r. destruct g as [rs a [pa ps mi] c d]. reflexivity.
  - rewrite IH. unfold noise_iteration, append_by_noise, Env.set_b.
    cbn [Env.results Env.ax_a Env.ax_b Env.ax_c Env.ax_d
         Env.phi_by_noise Env.phi_std_by_noise Env.optimal_idx].
    rewrite <- !app_assoc. reflexivity.
Qed.

Lemma phi_by_size_map results :
  phi_by_size results = map (fun k => fst (size_summary results k)) sizes.
Proof. unfold phi_by_size, panel_a. cbv zeta. rewrite size_fold. reflexivity. Qed.

Lemma phi_std_by_size_map results :
  phi_std_by_size results = map (fun k => snd (size_summary results k)) sizes.
Proof. unfold phi_std_by_size, panel_a. cbv zeta. rewrite size_fold. reflexivity. Qed.

Lemma phi_by_noise_map results :
  phi_by_noise results = map (fun k => fst (noise_summary results k)) noise_values.
Proof. unfold phi_by_noise, panel_b. cbv zeta. rewrite noise_fold. reflexivity. Qed.

Lemma phi_std_by_noise_map results :
  phi_std_by_noise results = map (fun k => snd (noise_summary results k)) noise_values.
Proof. unfold phi_std_by_noise, panel_b. cbv zeta. rewrite noise_fold. reflexivity. Qed.

(** The summary sequences are as long as the key sequences, whatever the
    records. *)
Lemma summary_lengths results :
  List.length (phi_by_size results) = List.length sizes /\
  List.length (phi_std_by_size results) = List.length sizes /\
  List.length (phi_by_noise results) = List.length noise_values /\
  List.length (phi_std_by_noise results) = List.length noise_values.
Proof.
  rewrite phi_by_size_map, phi_std_by_size_map, phi_by_noise_map, phi_std_by_noise_map.
  rewrite !length_map. auto.
Qed.

(** An empty group of the size loop is summarised as (0, 0). *)
Lemma size_empty_group results i size :
  nth_error sizes i = Some size ->
  size_results results size = [] ->
  nth_error (phi_by_size results) i = Some 0%float /\
  nth_error (phi_std_by_size results) i = Some 0%float.
Proof.
  intros Hi He. rewrite phi_by_size_map, phi_std_by_size_map, !nth_error_map, Hi. simpl.
  unfold size_summary. rewrite He. auto.
Qed.

(** An empty group of the noise loop is summarised as (nan, nan). *)
Lemma noise_empty_group results i noise_amp :
  nth_error noise_values i = Some noise_amp ->
  noise_results results noise_amp = [] ->
  nth_error (phi_by_noise results) i = Some nan /\
  nth_error (phi_std_by_noise results) i = Some nan.
Proof.
  intros Hi He. rewrite phi_by_noise_map, phi_std_by_noise_map, !nth_error_map, Hi. simpl.
  unfold noise_summary. rewrite He. auto.
Qed.

(** ** Baseline records (noise amplitude 0) *)

Lemma baseline_not_size_match (r : ResultRecord) (size : Z) :
  (noise_amplitude r =? 0)%float = true -> size_matches size r = false.
Proof.
  intros H. unfold size_matches. rewrite (eqb_zero_not_positive _ H).
  apply andb_false_r.
Qed.

Lemma filter_size_matches_without_baseline results size :
  filter (size_matches size)
    (filter (fun r => negb (noise_amplitude r =? 0)%float) results) =
  filter (size_matches size) results.
Proof.
  induction results as [|r results IH]; simpl; [reflexivity|].
  destruct (noise_amplitude r =? 0)%float eqn:E; simpl.
  - rewrite (baseline_not_size_match r size E). exact IH.
  - destruct (size_matches size r); rewrite IH; reflexivity.
Qed.

Lemma size_results_without_baseline results size :
  size_results (filter (fun r => negb (noise_amplitude r =? 0)%float) results) size =
  size_results results size.
Proof. unfold size_results. rewrite filter_size_matches_without_baseline. reflexivity. Qed.

Lemma size_summary_without_baseline results size :
  size_summary (filter (fun r => negb (noise_amplitude r =? 0)%float) results) size =
  size_summary results size.
Proof. unfold size_summary. rewrite size_results_without_baseline. reflexivity. Qed.

(** C2. A record whose noise amplitude equals 0 matches no key of the size
    loop, so the per-size summaries are those of the collection without
    the baseline records; and it is one of the records the noise loop
    selects for its first key, 0.0, whose summary is the first entry. *)
Theorem baseline_excluded_by_size_included_by_noise
    (results : list ResultRecord) (r : ResultRecord) :
  In r results ->
  (noise_amplitude r =? 0)%float = true ->
  (forall size, ~ In r (filter (size_matches size) results)) /\
  phi_by_size results =
    phi_by_size (filter (fun r => negb (noise_amplitude r =? 0)%float) results) /\
  phi_std_by_size results =
    phi_std_by_size (filter (fun r => negb (noise_amplitude r =? 0)%float) results) /\
  nth_error noise_values 0 = Some 0.0%float /\
  In r (filter (noise_matches 0.0) results) /\
  In (avg_phi r) (noise_results results 0.0) /\
  nth_error (phi_by_noise results) 0 = Some (np.mean (noise_results results 0.0)) /\
  nth_error (phi_std_by_noise results) 0 = Some (np.std (noise_results results 0.0)).
Proof.
  intros Hin Hz.
  assert (Hsel : In r (filter (noise_matches 0.0) results)).
  { apply filter_In. split; [assumption|]. exact Hz. }
  split.
  { intros size Hf. apply filter_In in Hf. destruct Hf as [_ Hf].
    rewrite (baseline_not_size_match r size Hz) in Hf. discriminate. }
  split.
  { rewrite !phi_by_size_map. apply map_ext. intros k.
    rewrite size_summary_without_baseline. reflexivity. }
  split.
  { rewrite !phi_std_by_size_map. apply map_ext. intros k.
    rewrite size_summary_without_baseline. reflexivity. }
  split; [reflexivity|].
  split; [exact Hsel|].
  split.
  { unfold noise_results. apply in_map. exact Hsel. }
  split.
  - rewrite phi_by_noise_map. reflexivity.
  - rewrite phi_std_by_noise_map. reflexivity.
Qed.

Lemma baseline_excluded_by_size_included_by_noise_witness :
  let r := mkRecord 64 "Baseline" 0.0 0.01 in
  let results := [mkRecord 64 "Low" 0.5 0.02; r; mkRecord 64 "Low" 0.5 0.04] in
  phi_by_size results = [0.03; 0; 0; 0]%float /\
  nth_error (phi_by_noise results) 0 = Some 0.01%float /\
  ~ In r (filter (size_matches 64) results).
Proof.
  pose (r := mkRecord 64 "Baseline" 0.0 0.01).
  pose (results := [mkRecord 64 "Low" 0.5 0.02; r; mkRecord 64 "Low" 0.5 0.04]).
  assert (Hin : In r results) by (right; left; reflexivity).
  assert (Hz : (noise_amplitude r =? 0)%float = true) by reflexivity.
  destruct (baseline_excluded_by_size_included_by_noise results r Hin Hz)
    as (Hex & _ & _ & _ & _ & _ & Hn & _).
  split; [reflexivity|]. split; [exact Hn|]. exact (Hex 64).
Defined.

(** ** Summaries of the groups *)




(** C7. The i-th entry of each summary list is the summary of the i-th
    key of the literal key sequence, whatever the order of the records. *)
Theorem summaries_follow_declared_keys (results : list ResultRecord) (i : nat) :
  sizes = [64; 81; 243; 729] /\
  noise_values = [0.0; 0.5; 1.0; 2.0; 5.0; 10.0; 20.0]%float /\
  nth_error (phi_by_size results) i =
    option_map (fun size => fst (size_summary results size)) (nth_error sizes i) /\
  nth_error (phi_std_by_size results) i =
    option_map (fun size => snd (size_summary results size)) (nth_error sizes i) /\
  nth_error (phi_by_noise results) i =
    option_map (fun noise_amp => np.mean (noise_results results noise_amp))
      (nth_error noise_values i) /\
  nth_error (phi_std_by_noise results) i =
    option_map (fun noise_amp => np.std (noise_results results noise_amp))
      (nth_error noise_values i).
Proof.
  rewrite phi_by_size_map, phi_std_by_size_map, phi_by_noise_map, phi_std_by_noise_map.
  rewrite !nth_error_map. repeat (split; [reflexivity|]). reflexivity.
Qed.

(** ** [np.argmax] without nan *)

Lemma argmax_scan_first_maximum tl : forall pre mp max_ind,
  Forall (fun x => is_nan x = false) (pre ++ tl) ->
  nth_error pre max_ind = Some mp ->
  (forall j y, nth_error pre j = Some y -> (y <=? mp)%float = true) ->
  (forall j y, (j < max_ind)%nat -> nth_error pre j = Some y -> (y <? mp)%float = true) ->
  first_maximum (pre ++ tl) (np.argmax_scan mp max_ind (List.length pre) tl).
Proof.
  induction tl as [|x tl IH]; intros pre mp max_ind Hnan Hmp Hle Hlt.
  - rewrite app_nil_r in *. exists mp. auto.
  - assert (Hin : (max_ind < List.length pre)%nat).
    { apply nth_error_Some. congruence. }
    assert (Hx : is_nan x = false).
    { rewrite Forall_forall in Hnan. apply Hnan. apply in_or_app. right. left. reflexivity. }
    assert (Hm : is_nan mp = false).
    { rewrite Forall_forall in Hnan. apply Hnan. apply in_or_app. left.
      eapply nth_error_In. exact Hmp. }
    replace (pre ++ x :: tl) with ((pre ++ [x]) ++ tl) in * by (rewrite <- app_assoc; reflexivity).
    cbn [np.argmax_scan].
    replace (S (List.length pre)) with (List.length (pre ++ [x]))
      by (rewrite length_app; simpl; lia).
    destruct (x <=? mp)%float eqn:E.
    + apply IH; try assumption.
      * rewrite nth_error_app1 by assumption. exact Hmp.
      * intros j y Hj. destruct (Nat.lt_ge_cases j (List.length pre)) as [Hlt'|Hge].
        -- rewrite nth_error_app1 in Hj by assumption. eapply Hle; eassumption.
        -- rewrite nth_error_app2 in Hj by assumption.
           destruct (j - List.length pre)%nat as [|k]; simpl in Hj.
           ++ injection Hj as <-. exact E.
           ++ destruct k; discriminate Hj.
      * intros j y Hj Hy. rewrite nth_error_app1 in Hy by lia. eapply Hlt; eassumption.
    + rewrite Hx. pose proof (leb_total x mp Hx Hm E) as Hgt.
      apply IH; try assumption.
      * rewrite nth_error_app2 by lia. rewrite Nat.sub_diag. reflexivity.
      * intros j y Hj. destruct (Nat.lt_ge_cases j (List.length pre)) as [Hlt'|Hge].
        -- rewrite nth_error_app1 in Hj by assumption.
           apply ltb_leb. eapply leb_ltb_trans; [eapply Hle; eassumption | exact Hgt].
        -- rewrite nth_error_app2 in Hj by assumption.
           destruct (j - List.length pre)%nat as [|k]; simpl in Hj.
           ++ injection Hj as <-. apply leb_refl, Hx.
           ++ destruct k; discriminate Hj.
      * intros j y Hj Hy. rewrite nth_error_app1 in Hy by assumption.
        eapply leb_ltb_trans; [eapply Hle; eassumption | exact Hgt].
Qed.

(** Where no element is nan, [np.argmax] returns the first position of
    the maximum. *)
Lemma argmax_first_maximum xs i :
  Forall (fun x => is_nan x = false) xs ->
  np.argmax xs = Some i -> first_maximum xs i.
Proof.
  destruct xs as [|x tl]; [discriminate|].
  intros Hnan H. cbn [np.argmax] in H.
  assert (Hx : is_nan x = false) by (inversion Hnan; assumption).
  rewrite Hx in H. injection H as <-.
  apply (argmax_scan_first_maximum tl [x] x 0%nat).
  - exact Hnan.
  - reflexivity.
  - intros [|[|j]] y Hj; try discriminate Hj. injection Hj as <-. apply leb_refl, Hx.
  - intros j y Hj. lia.
Qed.

(** When every noise amplitude has a record and no mean is nan, the red
    edge is on the first bar of maximal mean. *)
Lemma optimal_idx_first_maximum results :
  Forall (fun x => is_nan x = false) (phi_by_noise results) ->
  exists i, optimal_idx results = Some i /\ first_maximum (phi_by_noise results) i.
Proof.
  intros Hnan.
  assert (H : optimal_idx results = np.argmax (phi_by_noise results)).
  { unfold optimal_idx, phi_by_noise, panel_b. cbv zeta. rewrite noise_fold. reflexivity. }
  destruct (np.argmax (phi_by_noise results)) as [i|] eqn:E.
  - exists i. split; [exact H|]. apply argmax_first_maximum; assumption.
  - exfalso. pose proof (summary_lengths results) as (_ & _ & Hl & _).
    destruct (phi_by_noise results); [discriminate Hl | discriminate E].
Qed.

(** C1. With a single record, at noise amplitude 0.5, six of the seven
    noise keys have no matching record: the noise loop still appends
    seven summaries, but the empty groups get (nan, nan), where the size
    loop gives its empty groups (0, 0). *)
Theorem empty_noise_group_is_nan :
  let results := [mkRecord 64 "Low" 0.5 0.03] in
  phi_by_noise results = [nan; 0.03; nan; nan; nan; nan; nan]%float /\
  phi_std_by_noise results = [nan; 0; nan; nan; nan; nan; nan]%float /\
  phi_by_size results = [0.03; 0; 0; 0]%float /\
  phi_std_by_size results = [0; 0; 0; 0]%float.
Proof. repeat split; reflexivity. Qed.

(** C9. On the same input the red edge goes to bar 0, whose mean is nan,
    and not to bar 1, which holds the only and hence the largest mean. *)
Theorem optimal_idx_on_empty_group :
  let results := [mkRecord 64 "Low" 0.5 0.03] in
  phi_by_noise results = [nan; 0.03; nan; nan; nan; nan; nan]%float /\
  optimal_idx results = Some 0%nat.
Proof. split; reflexivity. Qed.

(** ** Panel C: the sorted configurations *)

Lemma insert_by_key_perm c l : Permutation (insert_by_key c l) (c :: l).
Proof.
  induction l as [|d tl IH]; simpl.
  - apply Permutation_refl.
  - destruct (config_key c <=? config_key d).
    + apply Permutation_refl.
    + apply perm_trans with (d :: c :: tl).
      * apply perm_skip, IH.
      * apply perm_swap.
Qed.

Lemma sort_by_key_perm l : Permutation (sort_by_key l) l.
Proof.
  induction l as [|c tl IH]; simpl.
  - apply perm_nil.
  - apply perm_trans with (c :: sort_by_key tl).
    + apply insert_by_key_perm.
    + apply perm_skip, IH.
Qed.

Lemma insert_by_key_sorted c l :
  StronglySorted key_le l -> StronglySorted key_le (insert_by_key c l).
Proof.
  induction 1 as [|d tl Hs IH Hall]; simpl.
  - repeat constructor.
  - destruct (config_key c <=? config_key d) eqn:E.
    + apply Z.leb_le in E. constructor.
      * constructor; assumption.
      * constructor; [exact E|].
        eapply Forall_impl; [|exact Hall].
        intros a Ha. unfold key_le in *. lia.
    + apply Z.leb_gt in E. constructor; [exact IH|].
      apply (Permutation_Forall (Permutation_sym (insert_by_key_perm c tl))).
      constructor; [unfold key_le; lia | exact Hall].
Qed.

Lemma sort_by_key_sorted l : StronglySorted key_le (sort_by_key l).
Proof.
  induction l as [|c tl IH]; simpl.
  - constructor.
  - apply insert_by_key_sorted, IH.
Qed.

(** Stability: among the configurations with one given key, the sort
    keeps the order of the comprehension. *)
Lemma insert_by_key_filter k c l :
  StronglySorted key_le l ->
  filter (fun d => config_key d =? k) (insert_by_key c l) =
  filter (fun d => config_key d =? k) (c :: l).
Proof.
  induction 1 as [|d tl Hs IH Hall]; [reflexivity|].
  cbn [insert_by_key]. destruct (config_key c <=? config_key d) eqn:E; [reflexivity|].
  apply Z.leb_gt in E. cbn [filter] in *.
  destruct (config_key d =? k) eqn:Ed.
  - apply Z.eqb_eq in Ed.
    replace (config_key c =? k) with false in * by (symmetry; apply Z.eqb_neq; lia).
    rewrite IH. reflexivity.
  - exact IH.
Qed.

Lemma sort_by_key_stable k l :
  filter (fun d => config_key d =? k) (sort_by_key l) =
  filter (fun d => config_key d =? k) l.
Proof.
  induction l as [|c tl IH]; [reflexivity|].
  cbn [sort_by_key]. rewrite insert_by_key_filter by apply sort_by_key_sorted.
  cbn [filter]. rewrite IH. reflexivity.
Qed.

Lemma quantum_configs_sorted_comprehension results :
  quantum_configs results = sort_by_key (quantum_configs_comprehension results).
Proof. reflexivity. Qed.

Lemma classical_phi_repeat results :
  classical_phi results = repeat 0.0%float (List.length (quantum_configs results)).
Proof. reflexivity. Qed.

Lemma quantum_phi_map results :
  quantum_phi results = map (fun c : config => snd c) (quantum_configs results).
Proof. reflexivity. Qed.

(** The sorted configurations are the configurations of the selected
    records taken in some order. *)
Lemma insert_by_key_records r sorted :
  exists sorted', Permutation sorted' (r :: sorted) /\
    map config_of sorted' = insert_by_key (config_of r) (map config_of sorted).
Proof.
  induction sorted as [|d tl (tl' & Hp & Hm)]; cbn [map insert_by_key].
  - exists [r]. split; [apply Permutation_refl | reflexivity].
  - destruct (config_key (config_of r) <=? config_key (config_of d)).
    + exists (r :: d :: tl). split; [apply Permutation_refl | reflexivity].
    + exists (d :: tl'). split.
      * apply perm_trans with (d :: r :: tl); [apply perm_skip, Hp | apply perm_swap].
      * cbn [map]. rewrite Hm. reflexivity.
Qed.

Lemma sort_by_key_records selected :
  exists sorted, Permutation sorted selected /\
    map config_of sorted = sort_by_key (map config_of selected).
Proof.
  induction selected as [|r tl (tl' & Hp & Hm)]; cbn [map sort_by_key].
  - exists []. split; [apply perm_nil | reflexivity].
  - rewrite <- Hm. destruct (insert_by_key_records r tl') as (sorted & Hp' & Hm').
    exists sorted. split; [|exact Hm'].
    apply perm_trans with (r :: tl'); [exact Hp' | apply perm_skip, Hp].
Qed.

Lemma StronglySorted_map_inv {A B : Type} (f : A -> B) (R : B -> B -> Prop) l :
  StronglySorted R (map f l) -> StronglySorted (fun a b => R (f a) (f b)) l.
Proof.
  induction l as [|a tl IH]; cbn [map]; intros H; [constructor|].
  inversion H as [|? ? Hs Hall]; subst. constructor; [apply IH, Hs|].
  rewrite Forall_map in Hall. exact Hall.
Qed.

(** C10. The classical series is 0.0 repeated once per record of positive
    noise amplitude. The bars of the quantum series follow those records
    rearranged in non-decreasing order of [effective_neurons]: the sorted
    configurations are the triples of the rearranged records, the quantum
    series is their [avg_phi], and the classical series has one 0.0 for
    each of them. *)
Theorem quantum_classical_series (results : list ResultRecord) :
  let selected := filter (fun r => (0 <? noise_amplitude r)%float) results in
  classical_phi results = repeat 0.0%float (List.length selected) /\
  exists sorted : list ResultRecord,
    Permutation sorted selected /\
    StronglySorted (fun r1 r2 => effective_neurons r1 <= effective_neurons r2) sorted /\
    quantum_configs results =
      map (fun r => (effective_neurons r, noise_level r, avg_phi r)) sorted /\
    quantum_phi results = map avg_phi sorted /\
    List.length (classical_phi results) = List.length sorted.
Proof.
  intros selected.
  destruct (sort_by_key_records selected) as (sorted & Hp & Hm).
  assert (Hq : quantum_configs results = map config_of sorted).
  { rewrite quantum_configs_sorted_comprehension. symmetry. exact Hm. }
  assert (Hl : List.length (quantum_configs results) = List.length selected).
  { rewrite Hq, length_map. apply Permutation_length, Hp. }
  split. { rewrite classical_phi_repeat, Hl. reflexivity. }
  exists sorted. split; [exact Hp|]. split.
  { apply (StronglySorted_map_inv config_of key_le). rewrite Hm. apply sort_by_key_sorted. }
  split; [exact Hq|]. split.
  { rewrite quantum_phi_map, Hq, map_map. reflexivity. }
  rewrite classical_phi_repeat, repeat_length, Hq. apply length_map.
Qed.

(** ** What a panel reads *)

Lemma panel_a_vars g :
  Env.ax_a (panel_a g) =
  Env.mkA (phi_by_size (Env.results g)) (phi_std_by_size (Env.results g))
    (max_idx (Env.results g)).
Proof.
  unfold phi_by_size, phi_std_by_size, max_idx, panel_a. cbv zeta.
  rewrite !size_fold. reflexivity.
Qed.

Lemma panel_b_vars g :
  Env.ax_b (panel_b g) =
  Env.mkB (phi_by_noise (Env.results g)) (phi_std_by_noise (Env.results g))
    (optimal_idx (Env.results g)).
Proof.
  unfold phi_by_noise, phi_std_by_noise, optimal_idx, panel_b. cbv zeta.
  rewrite !noise_fold. reflexivity.
Qed.

Lemma panel_c_vars g :
  Env.ax_c (panel_c g) =
  Env.mkC (quantum_configs (Env.results g)) (classical_phi (Env.results g))
    (quantum_phi (Env.results g)).
Proof. reflexivity. Qed.

Lemma panel_d_vars npy_pow g :
  Env.ax_d (panel_d npy_pow g) =
  Env.mkD n_range (map (cubic_at npy_pow) n_range) (map exponential_at n_range).
Proof. reflexivity. Qed.

Lemma panel_a_frame g :
  Env.ax_b (panel_a g) = Env.ax_b g /\ Env.ax_c (panel_a g) = Env.ax_c g /\
  Env.ax_d (panel_a g) = Env.ax_d g.
Proof. unfold panel_a. cbv zeta. rewrite size_fold. repeat split. Qed.

Lemma panel_b_frame g :
  Env.ax_a (panel_b g) = Env.ax_a g /\ Env.ax_c (panel_b g) = Env.ax_c g /\
  Env.ax_d (panel_b g) = Env.ax_d g.
Proof. unfold panel_b. cbv zeta. rewrite noise_fold. repeat split. Qed.

Lemma panel_c_frame g :
  Env.ax_a (panel_c g) = Env.ax_a g /\ Env.ax_b (panel_c g) = Env.ax_b g /\
  Env.ax_d (panel_c g) = Env.ax_d g.
Proof. repeat split. Qed.

Lemma panel_d_frame npy_pow g :
  Env.ax_a (panel_d npy_pow g) = Env.ax_a g /\ Env.ax_b (panel_d npy_pow g) = Env.ax_b g /\
  Env.ax_c (panel_d npy_pow g) = Env.ax_c g.
Proof. repeat split. Qed.

Lemma env_ext (g h : Env.t) :
  Env.results g = Env.results h -> Env.ax_a g = Env.ax_a h -> Env.ax_b g = Env.ax_b h ->
  Env.ax_c g = Env.ax_c h -> Env.ax_d g = Env.ax_d h -> g = h.
Proof. destruct g, h. simpl. intros. subst. reflexivity. Qed.

Lemma figure1_ax_a npy_pow g : Env.ax_a (figure1 npy_pow g) = Env.ax_a (panel_a g).
Proof.
  unfold figure1.
  rewrite (proj1 (panel_d_frame npy_pow _)), (proj1 (panel_c_frame _)).
  apply (proj1 (panel_b_frame _)).
Qed.

Lemma figure1_ax_b npy_pow g : Env.ax_b (figure1 npy_pow g) = Env.ax_b (panel_b (panel_a g)).
Proof.
  unfold figure1.
  rewrite (proj1 (proj2 (panel_d_frame npy_pow _))).
  apply (proj1 (proj2 (panel_c_frame _))).
Qed.

Lemma figure1_ax_c npy_pow g :
  Env.ax_c (figure1 npy_pow g) = Env.ax_c (panel_c (panel_b (panel_a g))).
Proof. unfold figure1. apply (proj2 (proj2 (panel_d_frame npy_pow _))). Qed.

Lemma figure1_ax_d npy_pow g :
  Env.ax_d (figure1 npy_pow g) =
  Env.mkD n_range (map (cubic_at npy_pow) n_range) (map exponential_at n_range).
Proof. unfold figure1. apply panel_d_vars. Qed.

Lemma figure1_vars npy_pow g :
  figure1 npy_pow g =
  Env.mk (Env.results g)
    (Env.mkA (phi_by_size (Env.results g)) (phi_std_by_size (Env.results g))
       (max_idx (Env.results g)))
    (Env.mkB (phi_by_noise (Env.results g)) (phi_std_by_noise (Env.results g))
       (optimal_idx (Env.results g)))
    (Env.mkC (quantum_configs (Env.results g)) (classical_phi (Env.results g))
       (quantum_phi (Env.results g)))
    (Env.mkD n_range (map (cubic_at npy_pow) n_range) (map exponential_at n_range)).
Proof.
  apply env_ext; cbn [Env.results Env.ax_a Env.ax_b Env.ax_c Env.ax_d].
  - apply figure1_results.
  - rewrite figure1_ax_a. apply panel_a_vars.
  - rewrite figure1_ax_b, panel_b_vars, panel_a_results. reflexivity.
  - rewrite figure1_ax_c, panel_c_vars, panel_b_results, panel_a_results. reflexivity.
  - apply figure1_ax_d.
Qed.

(** C8. No statement of Figure 1 changes what [results] is bound to:
    every loop iteration and every panel leaves it as it found it, so the
    collection each panel aggregates, in the order the script runs them,
    is the loaded one, and all that the figure adds are the panels' own
    variables. *)
Theorem results_read_only
    (npy_pow : float -> float -> float) (g : Env.t) (size : Z) (noise_amp : float) :
  Env.results (size_iteration g size) = Env.results g /\
  Env.results (noise_iteration g noise_amp) = Env.results g /\
  Env.results (panel_a g) = Env.results g /\
  Env.results (panel_b g) = Env.results g /\
  Env.results (panel_c g) = Env.results g /\
  Env.results (panel_d npy_pow g) = Env.results g /\
  Env.results (figure1 npy_pow g) = Env.results g /\
  (forall rs,
     let ga := panel_a (Env.loaded rs) in
     let gb := panel_b ga in
     let gc := panel_c gb in
     Env.results ga = rs /\ Env.results gb = rs /\ Env.results gc = rs /\
     Env.ax_a ga = Env.mkA (phi_by_size rs) (phi_std_by_size rs) (max_idx rs) /\
     Env.ax_b gb = Env.mkB (phi_by_noise rs) (phi_std_by_noise rs) (optimal_idx rs) /\
     Env.ax_c gc = Env.mkC (quantum_configs rs) (classical_phi rs) (quantum_phi rs) /\
     figure1 npy_pow (Env.loaded rs) =
       Env.mk rs (Env.ax_a ga) (Env.ax_b gb) (Env.ax_c gc)
         (Env.mkD n_range (map (cubic_at npy_pow) n_range) (map exponential_at n_range))).
Proof.
  split; [apply size_iteration_results|].
  split; [apply noise_iteration_results|].
  split; [apply panel_a_results|].
  split; [apply panel_b_results|].
  split; [apply panel_c_results|].
  split; [apply panel_d_results|].
  split; [apply figure1_results|].
  intros rs ga gb gc.
  assert (Ra : Env.results ga = rs) by apply panel_a_results.
  assert (Rb : Env.results gb = rs).
  { unfold gb. rewrite panel_b_results. exact Ra. }
  assert (Rc : Env.results gc = rs).
  { unfold gc. rewrite panel_c_results. exact Rb. }
  assert (Va : Env.ax_a ga = Env.mkA (phi_by_size rs) (phi_std_by_size rs) (max_idx rs)).
  { unfold ga. rewrite panel_a_vars. reflexivity. }
  assert (Vb : Env.ax_b gb = Env.mkB (phi_by_noise rs) (phi_std_by_noise rs) (optimal_idx rs)).
  { unfold gb. rewrite panel_b_vars, Ra. reflexivity. }
  assert (Vc : Env.ax_c gc = Env.mkC (quantum_configs rs) (classical_phi rs) (quantum_phi rs)).
  { unfold gc. rewrite panel_c_vars, Rb. reflexivity. }
  split; [exact Ra|]. split; [exact Rb|]. split; [exact Rc|].
  split; [exact Va|]. split; [exact Vb|]. split; [exact Vc|].
  rewrite figure1_vars, Va, Vb, Vc. reflexivity.
Qed.

(** ** The runtime curves *)

(** C5. The two curves panel D binds are the images of the literal size
    array under two functions of the size alone: they are the same from
    any two states of the module, whatever [results] holds, and so the
    same after Figure 1 on any two loaded collections. *)
Theorem reference_curves_deterministic
    (npy_pow : float -> float -> float) (g1 g2 : Env.t) (rs1 rs2 : list ResultRecord) :
  Env.ax_d (panel_d npy_pow g1) = Env.ax_d (panel_d npy_pow g2) /\
  Env.ax_d (figure1 npy_pow (Env.loaded rs1)) = Env.ax_d (figure1 npy_pow (Env.loaded rs2)) /\
  Env.runtime_cubic (Env.ax_d (panel_d npy_pow g1)) = map (cubic_at npy_pow) n_range /\
  Env.runtime_exponential (Env.ax_d (panel_d npy_pow g1)) = map exponential_at n_range /\
  plotted_series PanelD (figure1 npy_pow (Env.loaded rs1)) =
    plotted_series PanelD (figure1 npy_pow (Env.loaded rs2)).
Proof.
  split; [rewrite !panel_d_vars; reflexivity|].
  split; [rewrite !figure1_vars; reflexivity|].
  split; [reflexivity|].
  split; [reflexivity|].
  unfold plotted_series. rewrite !figure1_vars. reflexivity.
Qed.

Lemma wrap_int64_small z : - 2 ^ 63 <= z < 2 ^ 63 -> np.wrap_int64 z = z.
Proof. intros H. unfold np.wrap_int64. rewrite Z.mod_small; lia. Qed.

Lemma power_int64_exact n : 0 <= n < 63 -> np.power_int64 2 n = 2 ^ n.
Proof.
  intros H. unfold np.power_int64. apply wrap_int64_small.
  assert (0 < 2 ^ n) by (apply Z.pow_pos_nonneg; lia).
  assert (2 ^ n < 2 ^ 63) by (apply Z.pow_lt_mono_r; lia).
  lia.
Qed.

Lemma chart_panel_a npy_pow results :
  chart npy_pow PanelA results = [phi_by_size results].
Proof. unfold chart, plotted_series. rewrite figure1_vars. reflexivity. Qed.

Lemma chart_panel_b npy_pow results :
  chart npy_pow PanelB results = [phi_by_noise results].
Proof. unfold chart, plotted_series. rewrite figure1_vars. reflexivity. Qed.

Lemma chart_panel_c npy_pow results :
  chart npy_pow PanelC results = [classical_phi results; quantum_phi results].
Proof. unfold chart, plotted_series. rewrite figure1_vars. reflexivity. Qed.

Lemma chart_panel_d npy_pow results :
  chart npy_pow PanelD results =
  [map (cubic_at npy_pow) n_range; map exponential_at n_range; [7044%float]].
Proof. unfold chart, plotted_series. rewrite figure1_vars. reflexivity. Qed.

(** Only panel D has a series that does not move with the records: the
    series of A, B and C already differ between no record at all and one
    record. *)
Lemma reference_curve_only_in_panel_d npy_pow p :
  draws_reference_curve npy_pow p <-> p = PanelD.
Proof.
  split.
  - intros (i & s & H).
    pose proof (H []) as H0.
    pose proof (H [mkRecord 64 "Low" 0.5 0.03]) as H1.
    destruct p; [exfalso | exfalso | exfalso | reflexivity].
    + rewrite chart_panel_a in H0, H1.
      destruct i as [|i]; [|destruct i; discriminate H0].
      cbn [nth_error] in H0, H1. rewrite <- H0 in H1. clear H H0.
      apply (f_equal (fun o => match o with Some (x :: _) => (x =? 0)%float | _ => true end)) in H1.
      vm_compute in H1. discriminate H1.
    + rewrite chart_panel_b in H0, H1.
      destruct i as [|i]; [|destruct i; discriminate H0].
      cbn [nth_error] in H0, H1. rewrite <- H0 in H1. clear H H0.
      apply (f_equal (fun o => match o with Some (_ :: x :: _) => is_nan x | _ => true end)) in H1.
      vm_compute in H1. discriminate H1.
    + rewrite chart_panel_c in H0, H1.
      destruct i as [|[|i]]; [| |destruct i; discriminate H0];
        cbn [nth_error] in H0, H1; rewrite <- H0 in H1; clear H H0;
        apply (f_equal (fun o => match o with Some l => List.length l | None => 0%nat end)) in H1;
        vm_compute in H1; discriminate H1.
  - intros ->. exists 0%nat, (map (cubic_at npy_pow) n_range).
    intros results. rewrite chart_panel_d. reflexivity.
Qed.

(** C4, as stated: with [cube] for the power function, it is not the case
    that two different panels draw a reference curve. *)
Lemma not_two_panels_draw_reference_curves :
  ~ (exists p q, p <> q /\ draws_reference_curve cube p /\ draws_reference_curve cube q).
Proof.
  intros (p & q & Hne & Hp & Hq).
  apply reference_curve_only_in_panel_d in Hp, Hq. congruence.
Qed.

(** C4, amended. One panel, the log-log panel D, draws both reference
    series, and they are the same whatever the loaded records: the cubic
    one is [pow(n / 729, 3) * 7044] over the literal sizes, built on the
    pair (729, 7044); the other is [2**n * 0.001] over the same sizes,
    which does not use that pair, and equals [float(2^n) * 0.001] for an
    exponent below 63. *)
Theorem reference_curves_of_panel_d (npy_pow : float -> float -> float) :
  (forall p, draws_reference_curve npy_pow p <-> p = PanelD) /\
  (forall results,
     chart npy_pow PanelD results =
     [map (cubic_at npy_pow) n_range; map exponential_at n_range; [7044%float]]) /\
  n_range = [10; 50; 100; 200; 500; 1000] /\
  (forall n, cubic_at npy_pow n = (npy_pow (np.float_of_int64 n / 729) 3 * 7044)%float) /\
  (forall n, 0 <= n < 63 ->
     exponential_at n = (np.float_of_int64 (2 ^ n) * 0.001)%float).
Proof.
  split; [apply reference_curve_only_in_panel_d|].
  split; [apply chart_panel_d|].
  split; [reflexivity|].
  split; [reflexivity|].
  intros n Hn. unfold exponential_at. rewrite power_int64_exact by assumption. reflexivity.
Qed.

Lemma reference_curves_of_panel_d_witness :
  exponential_at 10 = 1.024%float /\
  chart cube PanelD [] = chart cube PanelD [mkRecord 64 "Low" 0.5 0.03].
Proof.
  destruct (reference_curves_of_panel_d cube) as (_ & Hc & _ & _ & He).
  split.
  - rewrite (He 10) by lia. reflexivity.
  - rewrite !Hc. reflexivity.
Defined.

(** ** Errors *)

Lemma script_load_failure npy_pow w e :
  load w = Raised e w -> script npy_pow w = Raised e w.
Proof. intros H. unfold script, bind. rewrite H. reflexivity. Qed.

Lemma script_no_results npy_pow w data :
  input_file w = Parsed data -> doc_results data = None ->
  script npy_pow w = Raised (KeyError "results") w.
Proof.
  intros Hin Hres. unfold script, bind at 1.
  unfold load. rewrite Hin. unfold bind at 1. rewrite Hres. reflexivity.
Qed.

Lemma script_no_figures_dir npy_pow w data results :
  input_file w = Parsed data -> doc_results data = Some results ->
  figures_dir_exists w = false ->
  script npy_pow w =
  Raised (FileNotFoundError (figures_dir ++ "simulated_results.png")%string)
    (mkWorld (input_file w) (figures_dir_exists w) (saved w)
       (("Generating Figure 1: simulated_results.png (4 panels)..."%string, []) :: stdout w)).
Proof.
  intros Hin Hres Hdir. unfold script, bind at 1.
  unfold load. rewrite Hin. unfold bind at 1. rewrite Hres.
  unfold subscript, ret. unfold bind at 1. unfold print at 1.
  unfold bind at 1. unfold savefig at 1.
  cbn [figures_dir_exists input_file saved stdout]. rewrite ?Hin, ?Hdir. reflexivity.
Qed.

(** Without the figures directory nothing is ever saved. *)
Lemma script_saves_nothing_without_dir npy_pow w :
  figures_dir_exists w = false -> saved (world_after (script npy_pow w)) = saved w.
Proof.
  intros Hdir.
  destruct (input_file w) as [| | |data] eqn:Hin.
  - rewrite (script_load_failure npy_pow w (FileNotFoundError input_path)); [reflexivity|].
    unfold load. rewrite Hin. reflexivity.
  - rewrite (script_load_failure npy_pow w (PermissionError input_path)); [reflexivity|].
    unfold load. rewrite Hin. reflexivity.
  - rewrite (script_load_failure npy_pow w JSONDecodeError); [reflexivity|].
    unfold load. rewrite Hin. reflexivity.
  - destruct (doc_results data) as [results|] eqn:Hres.
    + rewrite (script_no_figures_dir npy_pow w data results Hin Hres Hdir). reflexivity.
    + rewrite (script_no_results npy_pow w data Hin Hres). reflexivity.
Qed.

(** A document without the key [max_phi_achieved] is loaded all the same:
    the [KeyError] comes from the closing report, after the three images
    have been saved. *)
Lemma script_missing_metadata npy_pow w data results :
  input_file w = Parsed data -> doc_results data = Some results ->
  figures_dir_exists w = true -> max_phi_achieved data = None ->
  exists w', script npy_pow w = Raised (KeyError "max_phi_achieved") w' /\
    map fst (saved w') =
      [(figures_dir ++ "topological_invariants.png")%string;
       (figures_dir ++ "hierarchical_structure.png")%string;
       (figures_dir ++ "simulated_results.png")%string] ++ map fst (saved w).
Proof.
  intros Hin Hres Hdir Hmax. eexists.
  unfold script, bind, load, subscript, ret, raise, print, savefig.
  cbn [input_file figures_dir_exists saved stdout].
  rewrite Hin, Hres, Hdir, Hmax.
  split; reflexivity.
Qed.

(** C6. A missing, unreadable or malformed input makes the load raise,
    and a missing figures directory makes the first [savefig] raise; the
    script has no handler, so in each case the run ends there with that
    exception and a non-zero exit status: nothing has been saved, and
    after a load error nothing has been printed either. *)
Theorem load_and_write_errors_end_the_run (npy_pow : float -> float -> float) (w : World) :
  (input_file w = Missing ->
     script npy_pow w = Raised (FileNotFoundError input_path) w) /\
  (input_file w = Unreadable ->
     script npy_pow w = Raised (PermissionError input_path) w) /\
  (input_file w = NotJSON ->
     script npy_pow w = Raised JSONDecodeError w) /\
  (forall data, input_file w = Parsed data -> doc_results data = None ->
     script npy_pow w = Raised (KeyError "results") w) /\
  (loadable w = None ->
     exists e, DataLoadError e /\ script npy_pow w = Raised e w /\
               exit_code (script npy_pow w) = 1) /\
  (forall data results, loadable w = Some (data, results) ->
     figures_dir_exists w = false ->
     exists e w', WriteError e /\ script npy_pow w = Raised e w' /\
                  exit_code (script npy_pow w) = 1 /\
                  saved w' = saved w /\ input_file w' = input_file w /\
                  figures_dir_exists w' = false) /\
  (figures_dir_exists w = false -> saved (world_after (script npy_pow w)) = saved w).
Proof.
  assert (Hm : input_file w = Missing ->
               script npy_pow w = Raised (FileNotFoundError input_path) w).
  { intros Hin. apply script_load_failure. unfold load. rewrite Hin. reflexivity. }
  assert (Hu : input_file w = Unreadable ->
               script npy_pow w = Raised (PermissionError input_path) w).
  { intros Hin. apply script_load_failure. unfold load. rewrite Hin. reflexivity. }
  assert (Hj : input_file w = NotJSON -> script npy_pow w = Raised JSONDecodeError w).
  { intros Hin. apply script_load_failure. unfold load. rewrite Hin. reflexivity. }
  split; [exact Hm|]. split; [exact Hu|]. split; [exact Hj|].
  split; [intros data; apply script_no_results|].
  split.
  { unfold loadable, DataLoadError. intros Hl.
    destruct (input_file w) as [| | |data] eqn:Hin.
    - exists (FileNotFoundError input_path). rewrite (Hm eq_refl). auto.
    - exists (PermissionError input_path). rewrite (Hu eq_refl). auto.
    - exists JSONDecodeError. rewrite (Hj eq_refl). auto.
    - destruct (doc_results data) as [results|] eqn:Hres; [discriminate|].
      exists (KeyError "results"). rewrite (script_no_results npy_pow w data Hin Hres). auto 6. }
  split.
  { unfold loadable. intros data results Hl Hdir.
    destruct (input_file w) as [| | |data'] eqn:Hin; try discriminate.
    destruct (doc_results data') as [results'|] eqn:Hres; [|discriminate].
    rewrite <- Hin.
    rewrite (script_no_figures_dir npy_pow w data' results' Hin Hres Hdir).
    eexists. eexists. split.
    { unfold WriteError. eexists. reflexivity. }
    split; [reflexivity|]. cbn [exit_code saved input_file figures_dir_exists]. auto. }
  apply script_saves_nothing_without_dir.
Qed.

Lemma load_and_write_errors_end_the_run_witness :
  script cube (mkWorld Missing true [] []) =
    Raised (FileNotFoundError input_path) (mkWorld Missing true [] []) /\
  saved (world_after
           (script cube
              (mkWorld (Parsed (mkDocument (Some []) None None None None)) false [] []))) = [].
Proof.
  split.
  - destruct (load_and_write_errors_end_the_run cube (mkWorld Missing true [] []))
      as (Hm & _).
    exact (Hm eq_refl).
  - destruct (load_and_write_errors_end_the_run cube
                (mkWorld (Parsed (mkDocument (Some []) None None None None)) false [] []))
      as (_ & _ & _ & _ & _ & _ & Hs).
    exact (Hs eq_refl).
Defined.

(** * More properties of the script *)

(** ** Indices and lengths *)

Lemma argmax_scan_bound xs : forall mp max_ind i,
  (max_ind < i)%nat -> (np.argmax_scan mp max_ind i xs < i + List.length xs)%nat.
Proof.
  induction xs as [|x tl IH]; intros mp max_ind i Hlt; cbn [np.argmax_scan List.length].
  - lia.
  - destruct (x <=? mp)%float.
    + specialize (IH mp max_ind (S i)). lia.
    + destruct (is_nan x); [lia|]. specialize (IH x i (S i)). lia.
Qed.

Lemma argmax_in_range xs :
  xs <> [] -> exists i, np.argmax xs = Some i /\ (i < List.length xs)%nat.
Proof.
  destruct xs as [|x tl]; [congruence|]. intros _. cbn [np.argmax List.length].
  eexists. split; [reflexivity|].
  destruct (is_nan x); [lia|].
  pose proof (argmax_scan_bound tl x 0%nat 1%nat). lia.
Qed.

Lemma max_idx_argmax results : max_idx results = np.argmax (phi_by_size results).
Proof. unfold max_idx, phi_by_size, panel_a. cbv zeta. rewrite !size_fold. reflexivity. Qed.

Lemma optimal_idx_argmax results : optimal_idx results = np.argmax (phi_by_noise results).
Proof. unfold optimal_idx, phi_by_noise, panel_b. cbv zeta. rewrite !noise_fold. reflexivity. Qed.

(** X1. Whatever the records are, the sequences handed together to one
    plotting call have equal lengths: sizes, means and error bars in
    panel A (4), bar positions, means, error bars and colours in panel B
    (7), and the two series of panel C. *)
Theorem plotted_sequences_align (results : list ResultRecord) :
  (List.length (phi_by_size results) = List.length sizes /\
   List.length (phi_std_by_size results) = List.length sizes /\
   List.length sizes = 4%nat) /\
  (List.length (phi_by_noise results) = List.length bar_positions /\
   List.length (phi_std_by_noise results) = List.length bar_positions /\
   List.length colors = List.length bar_positions /\
   List.length noise_values = List.length noise_levels /\
   List.length bar_positions = 7%nat) /\
  (List.length (classical_phi results) = List.length (quantum_configs results) /\
   List.length (quantum_phi results) = List.length (quantum_configs results)).
Proof.
  pose proof (summary_lengths results) as (H1 & H2 & H3 & H4).
  split; [auto|]. split.
  - rewrite H3, H4. repeat split.
  - rewrite classical_phi_repeat, quantum_phi_map, repeat_length, length_map. auto.
Qed.

(** X2. [np.argmax] never fails on the two summary lists, and the index it
    returns is a position of the list it came from and of the sequence it
    is used to subscript: [sizes[max_idx]], [phi_by_size[max_idx]] and
    [bars[optimal_idx]] are always in range, also when means are nan. *)
Theorem argmax_indices_in_range (results : list ResultRecord) :
  exists i j,
    max_idx results = Some i /\ optimal_idx results = Some j /\
    (i < List.length sizes)%nat /\ (i < List.length (phi_by_size results))%nat /\
    (j < List.length bar_positions)%nat /\ (j < List.length (phi_by_noise results))%nat.
Proof.
  pose proof (summary_lengths results) as (H1 & _ & H3 & _).
  destruct (argmax_in_range (phi_by_size results)) as (i & Hi & Hil).
  { intros E. rewrite E in H1. discriminate H1. }
  destruct (argmax_in_range (phi_by_noise results)) as (j & Hj & Hjl).
  { intros E. rewrite E in H3. discriminate H3. }
  exists i, j. rewrite max_idx_argmax, optimal_idx_argmax.
  split; [exact Hi|]. split; [exact Hj|].
  rewrite H1 in Hil. rewrite H3 in Hjl.
  split; [exact Hil|]. split; [rewrite H1; exact Hil|].
  split; [exact Hjl|]. rewrite H3. exact Hjl.
Qed.

(** ** Panel C keeps the file order within a size *)

Lemma filter_map_comm {A B : Type} (f : A -> B) (p : B -> bool) (l : list A) :
  filter p (map f l) = map f (filter (fun a => p (f a)) l).
Proof.
  induction l as [|a l IH]; [reflexivity|]. simpl.
  destruct (p (f a)); simpl; rewrite IH; reflexivity.
Qed.

Lemma filter_filter {A : Type} (p q : A -> bool) (l : list A) :
  filter p (filter q l) = filter (fun a => q a && p a) l.
Proof.
  induction l as [|a l IH]; [reflexivity|]. simpl.
  destruct (q a); simpl; [destruct (p a)|]; rewrite IH; reflexivity.
Qed.

(** X3. The sort of panel C is stable: for every size, the configurations
    of that size stand in [quantum_configs] in the order their records
    have in the file, so equal sizes never reorder the quantum bars. *)
Theorem quantum_configs_keep_file_order (results : list ResultRecord) (k : Z) :
  filter (fun c => config_key c =? k) (quantum_configs results) =
  map config_of
    (filter (fun r => (0 <? noise_amplitude r)%float && (effective_neurons r =? k)) results) /\
  map (fun c : config => snd c)
    (filter (fun c => config_key c =? k) (quantum_configs results)) =
  map avg_phi
    (filter (fun r => (0 <? noise_amplitude r)%float && (effective_neurons r =? k)) results).
Proof.
  assert (H : filter (fun c => config_key c =? k) (quantum_configs results) =
              map config_of
                (filter (fun r => (0 <? noise_amplitude r)%float && (effective_neurons r =? k))
                   results)).
  { rewrite quantum_configs_sorted_comprehension, sort_by_key_stable.
    unfold quantum_configs_comprehension. rewrite filter_map_comm, filter_filter.
    reflexivity. }
  split; [exact H|]. rewrite H, map_map. reflexivity.
Qed.

(** ** The int64 power of panel D *)

Lemma power_int64_overflow n : 64 <= n -> np.power_int64 2 n = 0.
Proof.
  intros H. unfold np.power_int64, np.wrap_int64.
  replace n with ((n - 64) + 64) by lia.
  rewrite Z.pow_add_r by lia.
  rewrite Z.add_comm, Z_mod_plus_full. reflexivity.
Qed.

(** X4. [2**n_range] is an int64 power, so from exponent 64 on it wraps to
    0 and the plotted value is 0.0: of the six points of the curve
    labelled O(2^n), only those for n = 10 and n = 50 are powers of two
    times 0.001. *)
Theorem exponential_curve_wraps_to_zero (npy_pow : float -> float -> float) (n : Z) :
  64 <= n ->
  np.power_int64 2 n = 0 /\
  exponential_at n = 0%float /\
  Env.runtime_exponential (Env.ax_d (panel_d npy_pow (Env.loaded []))) =
    [1.024; 1125899906842.624; 0; 0; 0; 0]%float.
Proof.
  intros H. split; [apply power_int64_overflow, H|]. split.
  - unfold exponential_at. rewrite power_int64_overflow by assumption. reflexivity.
  - reflexivity.
Qed.

Lemma exponential_curve_wraps_to_zero_witness :
  exponential_at 100 = 0%float /\ exponential_at 1000 = 0%float.
Proof.
  split.
  - exact (proj1 (proj2 (exponential_curve_wraps_to_zero cube 100 ltac:(lia)))).
  - exact (proj1 (proj2 (exponential_curve_wraps_to_zero cube 1000 ltac:(lia)))).
Defined.

(** X5. The cubic curve is scaled from the measured run: for any [pow]
    with [pow(1.0, 3.0) = 1.0], its value at 729 neurons is the 7044
    seconds of the marker drawn at (729, 7044). *)
Theorem cubic_curve_meets_the_marker (npy_pow : float -> float -> float) :
  npy_pow 1%float 3%float = 1%float ->
  cubic_at npy_pow 729 = 7044%float /\
  nth_error (plotted_series PanelD (panel_d npy_pow (Env.loaded []))) 2 = Some [7044%float].
Proof.
  intros H. split; [|reflexivity]. unfold cubic_at.
  change (np.float_of_int64 729 / 729)%float with 1%float. rewrite H. reflexivity.
Qed.

Lemma cubic_curve_meets_the_marker_witness : cubic_at cube 729 = 7044%float.
Proof. exact (proj1 (cubic_curve_meets_the_marker cube eq_refl)). Defined.

(** ** The run as a whole *)

(** X6. A run that returns, with exit status 0, had an input file that
    parsed and carried the key [results], the figures directory in place
    and the four report keys present; it has saved exactly the three
    images, in order, the first drawn from the loaded collection, and the
    report's count of configurations is the length of that collection. *)
Theorem complete_run (npy_pow : float -> float -> float) (w w' : World) :
  script npy_pow w = Returned tt w' ->
  exists (data : Document) (results : list ResultRecord),
    input_file w = Parsed data /\
    doc_results data = Some results /\
    figures_dir_exists w = true /\
    first_missing_key data = None /\
    exit_code (script npy_pow w) = 0 /\
    saved w' = three_images (figure1 npy_pow (Env.loaded results)) ++ saved w /\
    In ("  - Configurations tested: %d"%string, [VInt (Z.of_nat (List.length results))])
       (stdout w') /\
    input_file w' = input_file w.
Proof.
  intros Hrun.
  assert (Hexit : exit_code (script npy_pow w) = 0) by (rewrite Hrun; reflexivity).
  destruct (input_file w) as [| | |data] eqn:Hin.
  - rewrite (script_load_failure npy_pow w (FileNotFoundError input_path)) in Hrun;
      [discriminate Hrun | unfold load; rewrite Hin; reflexivity].
  - rewrite (script_load_failure npy_pow w (PermissionError input_path)) in Hrun;
      [discriminate Hrun | unfold load; rewrite Hin; reflexivity].
  - rewrite (script_load_failure npy_pow w JSONDecodeError) in Hrun;
      [discriminate Hrun | unfold load; rewrite Hin; reflexivity].
  - destruct (doc_results data) as [results|] eqn:Hres;
      [|rewrite (script_no_results npy_pow w data Hin Hres) in Hrun; discriminate Hrun].
    destruct (figures_dir_exists w) eqn:Hdir;
      [|rewrite (script_no_figures_dir npy_pow w data results Hin Hres Hdir) in Hrun;
        discriminate Hrun].
    exists data, results.
    split; [reflexivity|]. split; [exact Hres|]. split; [reflexivity|].
    enough (H : first_missing_key data = None /\
                saved w' = three_images (figure1 npy_pow (Env.loaded results)) ++ saved w /\
                In ("  - Configurations tested: %d"%string,
                    [VInt (Z.of_nat (List.length results))]) (stdout w') /\
                input_file w' = Parsed data).
    { destruct H as (H1 & H2 & H3 & H4).
      split; [exact H1|]. split; [exact Hexit|]. split; [exact H2|].
      split; [exact H3 | exact H4]. }
    clear Hexit. revert Hrun. unfold first_missing_key.
    unfold script, bind, load, subscript, ret, raise, print, savefig.
    cbn [input_file figures_dir_exists saved stdout].
    rewrite Hin, Hres, Hdir.
    destruct (max_phi_achieved data) as [max_phi|]; [|discriminate 1].
    destruct (runtime_seconds data) as [seconds|]; [|discriminate 1].
    destruct (system data) as [sys|]; [|discriminate 1].
    destruct (best_config data) as [best|]; [|discriminate 1].
    intros Hrun. apply (f_equal world_after) in Hrun.
    cbn [world_after input_file figures_dir_exists saved stdout] in Hrun.
    rewrite <- Hrun. cbn [saved stdout input_file].
    split; [reflexivity|]. split; [reflexivity|].
    split.
    + rewrite figure1_results. cbn [Env.loaded Env.results].
      do 4 right. left. reflexivity.
    + exact Hin.
Qed.

Lemma complete_run_witness :
  let w := mkWorld
             (Parsed (mkDocument (Some [mkRecord 64 "Low" 0.5 0.03]) (Some 0.0365%float)
                        (Some 7044%float) (Some "quantum"%string) (Some "XLarge"%string)))
             true [] [] in
  exit_code (script cube w) = 0 /\
  map fst (saved (world_after (script cube w))) =
    [(figures_dir ++ "topological_invariants.png")%string;
     (figures_dir ++ "hierarchical_structure.png")%string;
     (figures_dir ++ "simulated_results.png")%string].
Proof.
  intros w.
  assert (Hrun : script cube w = Returned tt (world_after (script cube w))).
  { vm_compute. reflexivity. }
  destruct (complete_run cube w (world_after (script cube w)) Hrun)
    as (data & results & _ & _ & _ & _ & Hexit & Hsaved & _).
  split; [exact Hexit|]. rewrite Hsaved. reflexivity.
Defined.

(** X7. A report key that is missing from the input is noticed only at
    the end: the run stops with the [KeyError] of the first missing key,
    in the order the report reads them, with exit status 1, and the three
    images are already saved. *)
Theorem missing_report_key_fails_late (npy_pow : float -> float -> float) (w : World)
    (data : Document) (results : list ResultRecord) (key : string) :
  input_file w = Parsed data ->
  doc_results data = Some results ->
  figures_dir_exists w = true ->
  first_missing_key data = Some key ->
  exists w',
    script npy_pow w = Raised (KeyError key) w' /\
    exit_code (script npy_pow w) = 1 /\
    saved w' = three_images (figure1 npy_pow (Env.loaded results)) ++ saved w.
Proof.
  intros Hin Hres Hdir Hkey.
  unfold first_missing_key in Hkey.
  unfold script, bind, load, subscript, ret, raise, print, savefig.
  cbn [input_file figures_dir_exists saved stdout].
  rewrite Hin, Hres, Hdir.
  destruct (max_phi_achieved data) as [max_phi|];
    [destruct (runtime_seconds data) as [seconds|];
       [destruct (system data) as [sys|];
          [destruct (best_config data) as [best|]; [discriminate Hkey|]|]|]|];
    injection Hkey as <-; eexists; cbn [exit_code saved];
    (split; [reflexivity|]); (split; [reflexivity|]); reflexivity.
Qed.

Lemma missing_report_key_fails_late_witness :
  exit_code
    (script cube
       (mkWorld
          (Parsed (mkDocument (Some []) (Some 0.0365%float) None (Some "quantum"%string) None))
          true [] [])) = 1.
Proof.
  destruct (missing_report_key_fails_late cube
              (mkWorld
                 (Parsed (mkDocument (Some []) (Some 0.0365%float) None (Some "quantum"%string) None))
                 true [] [])
              _ _ "runtime_seconds"%string eq_refl eq_refl eq_refl eq_refl) as (w' & _ & He & _).
  exact He.
Defined.

(** ** Which records reach which group *)

Lemma filter_implied {A : Type} (p q : A -> bool) (l : list A) :
  (forall a, p a = true -> q a = true) -> filter p (filter q l) = filter p l.
Proof.
  intros H. induction l as [|a l IH]; [reflexivity|]. simpl.
  destruct (q a) eqn:Eq; simpl.
  - destruct (p a); rewrite IH; reflexivity.
  - destruct (p a) eqn:Ep; [|exact IH]. apply H in Ep. congruence.
Qed.

(** X8. A record whose size is none of the four declared sizes takes part
    in no point of panel A, and a record whose noise amplitude equals none
    of the seven declared values takes part in no bar of panel B: the
    summaries are those of the collection without such records. Panel C
    keeps them, whatever their size. *)
Theorem undeclared_keys_are_dropped (results : list ResultRecord) :
  phi_by_size results = phi_by_size (filter has_declared_size results) /\
  phi_std_by_size results = phi_std_by_size (filter has_declared_size results) /\
  phi_by_noise results = phi_by_noise (filter has_declared_noise results) /\
  phi_std_by_noise results = phi_std_by_noise (filter has_declared_noise results) /\
  List.length (quantum_phi results) =
    List.length (filter (fun r => (0 <? noise_amplitude r)%float) results).
Proof.
  assert (Hs : forall k, In k sizes ->
             size_summary (filter has_declared_size results) k = size_summary results k).
  { intros k Hk. unfold size_summary, size_results.
    rewrite filter_implied; [reflexivity|].
    intros r Hr. unfold size_matches in Hr. apply andb_prop in Hr. destruct Hr as [Hr _].
    unfold has_declared_size. apply existsb_exists. exists k. auto. }
  assert (Hn : forall k, In k noise_values ->
             noise_summary (filter has_declared_noise results) k = noise_summary results k).
  { intros k Hk. unfold noise_summary, noise_results.
    rewrite filter_implied; [reflexivity|].
    intros r Hr. unfold has_declared_noise. apply existsb_exists. exists k. auto. }
  rewrite !phi_by_size_map, !phi_std_by_size_map, !phi_by_noise_map, !phi_std_by_noise_map.
  split. { apply map_ext_in. intros k Hk. rewrite Hs by assumption. reflexivity. }
  split. { apply map_ext_in. intros k Hk. rewrite Hs by assumption. reflexivity. }
  split. { apply map_ext_in. intros k Hk. rewrite Hn by assumption. reflexivity. }
  split. { apply map_ext_in. intros k Hk. rewrite Hn by assumption. reflexivity. }
  rewrite quantum_phi_map, length_map, quantum_configs_sorted_comprehension.
  rewrite (Permutation_length (sort_by_key_perm _)).
  unfold quantum_configs_comprehension. apply length_map.
Qed.

Lemma SFeqb_common x a b : SFeqb x a = true -> SFeqb x b = true -> SFeqb a b = true.
Proof.
  unfold SFeqb.
  destruct x as [[]|[]| |[] mx ex], a as [[]|[]| |[] ma ea], b as [[]|[]| |[] mb eb];
    simpl; try discriminate; try reflexivity;
    change (Pos.compare_cont Eq) with Pos.compare;
    intros H1 H2; cmp_cases; simpl in *; try discriminate; try reflexivity; try lia.
Qed.

Lemma eqb_common x a b :
  (x =? a)%float = true -> (x =? b)%float = true -> (a =? b)%float = true.
Proof. rewrite !eqb_spec. apply SFeqb_common. Qed.

(** X9. No record is counted twice within a panel: a record matches at
    most one of the declared sizes in panel A and at most one of the
    declared noise amplitudes in panel B. *)
Theorem record_in_at_most_one_group (r : ResultRecord) :
  (List.length (filter (fun size => size_matches size r) sizes) <= 1)%nat /\
  (List.length (filter (fun noise_amp => noise_matches noise_amp r) noise_values) <= 1)%nat.
Proof.
  split.
  - unfold size_matches, sizes. cbn [filter].
    destruct (0 <? noise_amplitude r)%float; rewrite ?andb_false_r, ?andb_true_r;
      [|cbn [List.length]; lia].
    repeat match goal with
           | |- context [(?x =? ?k)%Z] => destruct (Z.eqb_spec x k)
           end; cbn [List.length]; lia.
  - unfold noise_matches, noise_values. cbn [filter].
    repeat match goal with
           | |- context [(?x =? ?a)%float] => destruct (x =? a)%float eqn:?
           end; cbn [List.length]; try lia;
    match goal with
    | H1 : (?x =? ?a)%float = true, H2 : (?x =? ?b)%float = true |- _ =>
        let E := fresh "E" in
        pose proof (eqb_common _ _ _ H1 H2) as E; vm_compute in E; discriminate E
    end.
Qed.

(** ** A collection without a record of positive noise *)

Lemma filter_nothing {A : Type} (p : A -> bool) (l : list A) :
  Forall (fun a => p a = false) l -> filter p l = [].
Proof.
  induction 1 as [|a l Ha _ IH]; [reflexivity|]. simpl. rewrite Ha. exact IH.
Qed.

(** X10. When no record has a positive noise amplitude (an empty
    collection, or baseline runs only), panel A is flat: every mean and
    every error bar is 0 and the "Max" annotation lands on the first
    size, 64; panel C has no bar at all. *)
Theorem without_positive_noise (results : list ResultRecord) :
  Forall (fun r => (0 <? noise_amplitude r)%float = false) results ->
  phi_by_size results = [0; 0; 0; 0]%float /\
  phi_std_by_size results = [0; 0; 0; 0]%float /\
  max_idx results = Some 0%nat /\
  quantum_configs results = [] /\
  classical_phi results = [] /\
  quantum_phi results = [].
Proof.
  intros H.
  assert (Hs : forall k, size_summary results k = (0%float, 0%float)).
  { intros k. unfold size_summary, size_results. rewrite filter_nothing; [reflexivity|].
    eapply Forall_impl; [|exact H]. intros r Hr. unfold size_matches.
    cbv beta in Hr. rewrite Hr. apply andb_false_r. }
  assert (Hp : phi_by_size results = [0; 0; 0; 0]%float).
  { rewrite phi_by_size_map. unfold sizes. cbn [map]. rewrite !Hs. reflexivity. }
  assert (Hq : quantum_configs results = []).
  { rewrite quantum_configs_sorted_comprehension. unfold quantum_configs_comprehension.
    rewrite filter_nothing by exact H. reflexivity. }
  split; [exact Hp|]. split.
  { rewrite phi_std_by_size_map. unfold sizes. cbn [map]. rewrite !Hs. reflexivity. }
  split. { rewrite max_idx_argmax, Hp. reflexivity. }
  split; [exact Hq|]. split.
  - rewrite classical_phi_repeat, Hq. reflexivity.
  - rewrite quantum_phi_map, Hq. reflexivity.
Qed.

Lemma without_positive_noise_witness :
  max_idx [mkRecord 81 "Baseline" 0.0 0.01; mkRecord 729 "Baseline" 0.0 0.02] = Some 0%nat.
Proof.
  assert (H : Forall (fun r => (0 <? noise_amplitude r)%float = false)
                [mkRecord 81 "Baseline" 0.0 0.01; mkRecord 729 "Baseline" 0.0 0.02]).
  { repeat constructor. }
  exact (proj1 (proj2 (proj2 (without_positive_noise _ H)))).
Defined.

(** ** Means and standard deviations that are not nan *)

Lemma iter_pos_invariant {A : Type} (P : A -> Prop) (f : A -> A) :
  (forall x, P x -> P (f x)) -> forall n x, P x -> P (iter_pos f n x).
Proof.
  intros Hf. induction n as [n IH|n IH|]; intros x Hx; simpl.
  - apply IH, IH, Hf, Hx.
  - apply IH, IH, Hx.
  - apply Hf, Hx.
Qed.

Lemma shr_1_nonneg mrs : 0 <= shr_m mrs -> 0 <= shr_m (shr_1 mrs).
Proof.
  destruct mrs as [m r s]. simpl. intros H.
  destruct m as [|[p|p|]|p]; simpl; lia.
Qed.

Lemma shr_fexp_nonneg m e l :
  0 <= m -> 0 <= shr_m (fst (shr_fexp prec emax m e l)).
Proof.
  intros H. unfold shr_fexp, shr.
  assert (H0 : 0 <= shr_m (shr_record_of_loc m l)).
  { destruct l as [|[]]; exact H. }
  destruct (fexp prec emax (Zdigits2 m + e) - e) as [|p|p]; cbn [fst]; try exact H0.
  apply (iter_pos_invariant (fun mrs => 0 <= shr_m mrs)); [apply shr_1_nonneg | exact H0].
Qed.

Lemma round_nearest_even_nonneg m l : 0 <= m -> 0 <= round_nearest_even m l.
Proof.
  intros H. unfold round_nearest_even.
  destruct l as [|[]]; try destruct (Z.even m); lia.
Qed.

Lemma binary_round_aux_not_nan sx m e l :
  0 <= m -> binary_round_aux prec emax sx m e l <> S754_nan.
Proof.
  intros H. unfold binary_round_aux.
  pose proof (shr_fexp_nonneg m e l H) as H1.
  destruct (shr_fexp prec emax m e l) as [mrs' e']. cbn [fst] in H1.
  pose proof (shr_fexp_nonneg (round_nearest_even (shr_m mrs') (loc_of_shr_record mrs'))
                e' loc_Exact (round_nearest_even_nonneg _ _ H1)) as H2.
  destruct (shr_fexp prec emax _ e' loc_Exact) as [mrs'' e'']. cbn [fst] in H2.
  destruct (shr_m mrs'') as [|p|p]; try discriminate; [|lia].
  destruct (e'' <=? emax - prec); discriminate.
Qed.

Lemma binary_normalize_not_nan m e s : binary_normalize prec emax m e s <> S754_nan.
Proof.
  unfold binary_normalize, binary_round.
  destruct m as [|p|p]; [discriminate| |];
    destruct (shl_align p e _) as [mz ez]; apply binary_round_aux_not_nan; lia.
Qed.

Lemma digits2_pos_lower p : 2 ^ (Z.pos (digits2_pos p) - 1) <= Z.pos p.
Proof.
  induction p as [p IH|p IH|]; cbn [digits2_pos].
  - rewrite Pos2Z.inj_succ. replace (Z.succ (Z.pos (digits2_pos p)) - 1)
      with (Z.succ (Z.pos (digits2_pos p) - 1)) by lia.
    rewrite Z.pow_succ_r by lia. lia.
  - rewrite Pos2Z.inj_succ. replace (Z.succ (Z.pos (digits2_pos p)) - 1)
      with (Z.succ (Z.pos (digits2_pos p) - 1)) by lia.
    rewrite Z.pow_succ_r by lia. lia.
  - simpl. lia.
Qed.

Lemma digits2_pos_small p : Z.pos p < 2 ^ 53 -> Z.pos (digits2_pos p) <= 53.
Proof.
  intros H. destruct (Z.le_gt_cases (Z.pos (digits2_pos p)) 53) as [Hle|Hgt]; [exact Hle|].
  pose proof (digits2_pos_lower p) as Hl.
  assert (2 ^ 53 <= 2 ^ (Z.pos (digits2_pos p) - 1)) by (apply Z.pow_le_mono_r; lia).
  lia.
Qed.

Lemma digits2_pos_iter_xO p k :
  Z.pos (digits2_pos (Pos.iter xO p k)) = Z.pos (digits2_pos p) + Z.pos k.
Proof.
  induction k as [|k IH] using Pos.peano_ind.
  - simpl. rewrite Pos2Z.inj_succ. lia.
  - rewrite Pos.iter_succ. cbn [digits2_pos]. rewrite Pos2Z.inj_succ, IH, Pos2Z.inj_succ. lia.
Qed.

(** A positive integer below 2^53 converts to a positive finite float. *)
Lemma binary_normalize_small p :
  Z.pos p < 2 ^ 53 ->
  exists m e, binary_normalize prec emax (Z.pos p) 0 false = S754_finite false m e.
Proof.
  intros H. pose proof (digits2_pos_small p H) as Hd.
  unfold binary_normalize, binary_round.
  replace (fexp prec emax (Z.pos (digits2_pos p) + 0)) with (Z.pos (digits2_pos p) - 53)
    by (unfold fexp, emin, prec, emax; lia).
  unfold shl_align.
  destruct (Z.pos (digits2_pos p) - 53 - 0) as [|k|k] eqn:E; try lia.
  - exists p, 0. apply round_canonical.
    unfold bounded, canonical_mantissa, fexp, emin, prec, emax.
    apply andb_true_intro. split; [apply Z.eqb_eq | apply Z.leb_le]; lia.
  - exists (Pos.iter xO p k), (Z.pos (digits2_pos p) - 53). apply round_canonical.
    unfold bounded, canonical_mantissa, fexp, emin, prec, emax.
    rewrite digits2_pos_iter_xO.
    apply andb_true_intro. split; [apply Z.eqb_eq | apply Z.leb_le]; lia.
Qed.

Lemma count_positive_finite (xs : list float) :
  xs <> [] -> Z.of_nat (List.length xs) < 2 ^ 53 ->
  exists m e, Prim2SF (np.count xs) = S754_finite false m e.
Proof.
  intros Hne Hlt. unfold np.count. rewrite of_uint63_spec, Uint63.of_Z_spec.
  assert (Hpos : 0 < Z.of_nat (List.length xs)).
  { destruct xs; [congruence|]. cbn [List.length]. lia. }
  rewrite Z.mod_small.
  - destruct (Z.of_nat (List.length xs)) as [|p|p] eqn:E; try lia.
    apply binary_normalize_small. lia.
  - split; [lia|]. eapply Z.lt_trans; [exact Hlt|]. reflexivity.
Qed.

Lemma is_nan_false_iff x : is_nan x = false <-> Prim2SF x <> S754_nan.
Proof.
  split; [apply not_nan_spec|].
  intros H. unfold is_nan. rewrite eqb_spec. unfold SFeqb.
  rewrite (SFcompare_refl _ H). reflexivity.
Qed.

Lemma is_finite_SFfinite x : is_finite x = true -> SFfinite (Prim2SF x).
Proof.
  intros H. destruct (finite_cases x H) as [[s ->] | (s & m & e & -> & _)]; exact I.
Qed.

Lemma SFnonneg_not_nan x : SFnonneg x -> x <> S754_nan.
Proof. destruct x; simpl; intros H; [discriminate|discriminate|contradiction|discriminate]. Qed.

Lemma binary_round_aux_nonneg m e l :
  0 <= m -> SFnonneg (binary_round_aux prec emax false m e l).
Proof.
  intros H. unfold binary_round_aux.
  pose proof (shr_fexp_nonneg m e l H) as H1.
  destruct (shr_fexp prec emax m e l) as [mrs' e']. cbn [fst] in H1.
  pose proof (shr_fexp_nonneg (round_nearest_even (shr_m mrs') (loc_of_shr_record mrs'))
                e' loc_Exact (round_nearest_even_nonneg _ _ H1)) as H2.
  destruct (shr_fexp prec emax _ e' loc_Exact) as [mrs'' e'']. cbn [fst] in H2.
  destruct (shr_m mrs'') as [|p|p]; [exact I| |lia].
  destruct (e'' <=? emax - prec); exact I.
Qed.

Lemma SFsub_not_nan a b : SFfinite a -> b <> S754_nan -> SF64sub a b <> S754_nan.
Proof.
  unfold SF64sub, SFsub.
  destruct a as [[]|[]| |sa ma ea], b as [[]|[]| |sb mb eb]; simpl;
    intros Ha Hb; try contradiction; try congruence; try discriminate;
    apply binary_normalize_not_nan.
Qed.

Lemma SFsquare_abs_nonneg x :
  x <> S754_nan -> SFnonneg (SF64mul (SFabs x) (SFabs x)).
Proof.
  unfold SF64mul, SFmul. destruct x as [s|s| |s m e]; intros H; try exact I; try congruence.
  cbn [SFabs xorb]. apply binary_round_aux_nonneg. lia.
Qed.

Lemma SFadd_nonneg a b : SFnonneg a -> SFnonneg b -> SFnonneg (SF64add a b).
Proof.
  unfold SF64add, SFadd.
  destruct a as [[]|[]| |[] ma ea], b as [[]|[]| |[] mb eb]; simpl;
    intros Ha Hb; try contradiction; try exact I.
  destruct (shl_align ma ea (Z.min ea eb)) as [ma' ea'].
  destruct (shl_align mb eb (Z.min ea eb)) as [mb' eb']. cbn [fst cond_Zopp].
  unfold binary_normalize, binary_round. cbn [Z.add].
  destruct (shl_align (ma' + mb') _ _) as [mz ez].
  apply binary_round_aux_nonneg. lia.
Qed.

Lemma SFdiv_nonneg a m e : SFnonneg a -> SFnonneg (SF64div a (S754_finite false m e)).
Proof.
  unfold SF64div, SFdiv.
  destruct a as [sa|[]| |[] ma ea]; simpl; intros Ha; try contradiction; try exact I.
  unfold SFdiv_core_binary.
  set (e' := Z.min _ _). set (s := ea - e - e').
  set (m' := match s with Z.pos _ => Z.shiftl (Z.pos ma) s | 0 => Z.pos ma | Z.neg _ => 0 end).
  assert (Hm' : 0 <= m').
  { unfold m'. destruct s; try lia. apply Z.shiftl_nonneg. lia. }
  pose proof (Z.div_pos m' (Z.pos m) Hm' ltac:(lia)) as Hq.
  unfold Z.div in Hq. destruct (Z.div_eucl m' (Z.pos m)) as [q r]. cbn [fst] in Hq.
  apply binary_round_aux_nonneg. exact Hq.
Qed.

Lemma SFsqrt_not_nan a : SFnonneg a -> SF64sqrt a <> S754_nan.
Proof.
  unfold SF64sqrt, SFsqrt.
  destruct a as [sa|[]| |[] ma ea]; simpl; intros Ha; try contradiction; try discriminate.
  unfold SFsqrt_core_binary.
  set (e' := Z.min _ _). set (s := ea - 2 * e').
  set (m' := match s with Z.pos _ => Z.shiftl (Z.pos ma) s | 0 => Z.pos ma | Z.neg _ => 0 end).
  assert (Hm' : 0 <= m').
  { unfold m'. destruct s; try lia. apply Z.shiftl_nonneg. lia. }
  pose proof (Z.sqrtrem_spec m' Hm') as Hs.
  destruct (Z.sqrtrem m') as [q r].
  apply binary_round_aux_not_nan. nia.
Qed.

Lemma nonneg_SFnonneg x : (0 <=? x)%float = true -> SFnonneg (Prim2SF x).
Proof.
  rewrite leb_spec. change (Prim2SF 0) with (S754_zero false).
  destruct (Prim2SF x) as [s|[|]| |[|] m e]; simpl; intros H; try exact I; discriminate H.
Qed.

(** Values of both signs are another matter: the eight accumulators can
    overflow to infinities of opposite signs, whose sum is nan, although
    every value is finite. *)
Lemma mean_of_finite_values_can_be_nan :
  np.mean [1e308; 1e308; -1e308; -1e308; 0; 0; 0; 0]%float = nan.
Proof. reflexivity. Qed.

(** A sum of values that are not negative is not negative (it may be
    +inf), in whatever order they are added. *)
Lemma sum_nonneg xs :
  xs <> [] -> Forall (fun t => SFnonneg (Prim2SF t)) xs -> SFnonneg (Prim2SF (np.sum xs)).
Proof.
  intros Hne H.
  apply (adds_up_closed (fun t => SFnonneg (Prim2SF t))) with xs;
    [|apply sum_adds_up, Hne | exact H].
  intros a b Ha Hb. rewrite add_spec. apply SFadd_nonneg; assumption.
Qed.

Lemma mean_nonneg xs :
  xs <> [] -> Z.of_nat (List.length xs) < 2 ^ 53 ->
  Forall (fun t => SFnonneg (Prim2SF t)) xs -> SFnonneg (Prim2SF (np.mean xs)).
Proof.
  intros Hne Hlt H. unfold np.mean. rewrite div_spec.
  destruct (count_positive_finite xs Hne Hlt) as (m & e & ->).
  apply SFdiv_nonneg, sum_nonneg; assumption.
Qed.

(** The mean of a non-empty list of fewer than 2^53 values that are not
    negative may overflow to +inf, but is never nan. *)
Lemma mean_not_nan xs :
  xs <> [] -> Z.of_nat (List.length xs) < 2 ^ 53 ->
  Forall (fun t => SFnonneg (Prim2SF t)) xs ->
  is_nan (np.mean xs) = false.
Proof.
  intros Hne Hlt H. apply is_nan_false_iff, SFnonneg_not_nan, mean_nonneg; assumption.
Qed.

(** Nor is the standard deviation, when the values are finite too. *)
Lemma std_not_nan xs :
  xs <> [] -> Z.of_nat (List.length xs) < 2 ^ 53 ->
  Forall (fun x => is_finite x = true) xs ->
  Forall (fun t => SFnonneg (Prim2SF t)) xs ->
  is_nan (np.std xs) = false.
Proof.
  intros Hne Hlt Hfin Hpos. unfold np.std. cbv zeta.
  pose proof (mean_not_nan xs Hne Hlt Hpos) as Hm.
  set (m := np.mean xs) in *.
  set (ts := map (fun x => (abs (x - m) * abs (x - m))%float) xs).
  assert (Hts : Forall (fun t => SFnonneg (Prim2SF t)) ts).
  { unfold ts. apply Forall_map. eapply Forall_impl; [|exact Hfin].
    intros x Hx. cbv beta. rewrite mul_spec, abs_spec, sub_spec.
    apply SFsquare_abs_nonneg, SFsub_not_nan.
    - apply is_finite_SFfinite, Hx.
    - apply is_nan_false_iff, Hm. }
  apply is_nan_false_iff. rewrite sqrt_spec. apply SFsqrt_not_nan.
  apply mean_nonneg; [| |exact Hts].
  - unfold ts. destruct xs; [congruence|discriminate].
  - unfold ts. rewrite length_map. exact Hlt.
Qed.

(** ** Panels A and B on measurements that are finite and not negative *)

Lemma size_results_forall (P : float -> Prop) results size :
  Forall (fun r => P (avg_phi r)) results -> Forall P (size_results results size).
Proof.
  intros H. unfold size_results. apply Forall_map. apply Forall_forall.
  intros r Hr. apply filter_In in Hr. rewrite Forall_forall in H. apply H, Hr.
Qed.

Lemma size_results_length results size :
  (List.length (size_results results size) <= List.length results)%nat.
Proof. unfold size_results. rewrite length_map. apply filter_length_le. Qed.

Lemma noise_results_forall (P : float -> Prop) results noise_amp :
  Forall (fun r => P (avg_phi r)) results -> Forall P (noise_results results noise_amp).
Proof.
  intros H. unfold noise_results. apply Forall_map. apply Forall_forall.
  intros r Hr. apply filter_In in Hr. rewrite Forall_forall in H. apply H, Hr.
Qed.

Lemma noise_results_length results noise_amp :
  (List.length (noise_results results noise_amp) <= List.length results)%nat.
Proof. unfold noise_results. rewrite length_map. apply filter_length_le. Qed.

Lemma measurements_split results :
  Forall (fun r => is_finite (avg_phi r) = true /\ (0 <=? avg_phi r)%float = true) results ->
  Forall (fun r => is_finite (avg_phi r) = true) results /\
  Forall (fun r => SFnonneg (Prim2SF (avg_phi r))) results.
Proof.
  intros H. split; (eapply Forall_impl; [|exact H]); cbv beta; intros r (Hf & Hp);
    [exact Hf | apply nonneg_SFnonneg, Hp].
Qed.

(** X11. When every [avg_phi] is a finite number that is not negative
    (and the file has fewer than 2^53 records), no mean and no error bar
    of panel A is nan, whichever groups are empty, and the "Max"
    annotation points at the first size whose mean is the largest. *)
Theorem panel_a_on_finite_measurements (results : list ResultRecord) :
  Forall (fun r => is_finite (avg_phi r) = true /\ (0 <=? avg_phi r)%float = true) results ->
  Z.of_nat (List.length results) < 2 ^ 53 ->
  Forall (fun x => is_nan x = false) (phi_by_size results) /\
  Forall (fun x => is_nan x = false) (phi_std_by_size results) /\
  exists i, max_idx results = Some i /\ first_maximum (phi_by_size results) i.
Proof.
  intros Hall Hlen. destruct (measurements_split results Hall) as (Hfin & Hpos).
  assert (Hsum : forall k, is_nan (fst (size_summary results k)) = false /\
                           is_nan (snd (size_summary results k)) = false).
  { intros k. unfold size_summary.
    pose proof (size_results_forall (fun x => is_finite x = true) results k Hfin) as Hf.
    pose proof (size_results_forall (fun x => SFnonneg (Prim2SF x)) results k Hpos) as Hp.
    pose proof (size_results_length results k) as Hl.
    destruct (size_results results k) as [|x tl] eqn:E; [split; reflexivity|].
    cbn [fst snd]. split; [apply mean_not_nan | apply std_not_nan];
      try discriminate; try exact Hf; try exact Hp; lia. }
  assert (Hmeans : Forall (fun x => is_nan x = false) (phi_by_size results)).
  { rewrite phi_by_size_map. apply Forall_map, Forall_forall. intros k _. apply Hsum. }
  split; [exact Hmeans|]. split.
  { rewrite phi_std_by_size_map. apply Forall_map, Forall_forall. intros k _. apply Hsum. }
  destruct (argmax_in_range (phi_by_size results)) as (i & Hi & _).
  { pose proof (summary_lengths results) as (H1 & _). intros E. rewrite E in H1.
    discriminate H1. }
  exists i. rewrite max_idx_argmax. split; [exact Hi|].
  apply argmax_first_maximum; assumption.
Qed.

Lemma panel_a_on_finite_measurements_witness :
  exists i, max_idx [mkRecord 64 "Low" 0.5 0.02; mkRecord 243 "High" 2.0 0.04] = Some i /\
            first_maximum
              (phi_by_size [mkRecord 64 "Low" 0.5 0.02; mkRecord 243 "High" 2.0 0.04]) i.
Proof.
  assert (Hall : Forall (fun r => is_finite (avg_phi r) = true /\
                                  (0 <=? avg_phi r)%float = true)
                   [mkRecord 64 "Low" 0.5 0.02; mkRecord 243 "High" 2.0 0.04]).
  { repeat constructor. }
  assert (Hlen : Z.of_nat (List.length
                   [mkRecord 64 "Low" 0.5 0.02; mkRecord 243 "High" 2.0 0.04]) < 2 ^ 53).
  { reflexivity. }
  exact (proj2 (proj2 (panel_a_on_finite_measurements _ Hall Hlen))).
Defined.

(** X12. When moreover every declared noise amplitude has at least one
    record, no mean and no error bar of panel B is nan, and the red edge
    is on the first bar whose mean is the largest. *)
Theorem panel_b_on_full_coverage (results : list ResultRecord) :
  Forall (fun r => is_finite (avg_phi r) = true /\ (0 <=? avg_phi r)%float = true) results ->
  Z.of_nat (List.length results) < 2 ^ 53 ->
  (forall noise_amp, In noise_amp noise_values -> noise_results results noise_amp <> []) ->
  Forall (fun x => is_nan x = false) (phi_by_noise results) /\
  Forall (fun x => is_nan x = false) (phi_std_by_noise results) /\
  exists j, optimal_idx results = Some j /\ first_maximum (phi_by_noise results) j.
Proof.
  intros Hall Hlen Hcov. destruct (measurements_split results Hall) as (Hfin & Hpos).
  assert (Hsum : forall k, In k noise_values ->
                   is_nan (fst (noise_summary results k)) = false /\
                   is_nan (snd (noise_summary results k)) = false).
  { intros k Hk. unfold noise_summary. cbn [fst snd].
    pose proof (noise_results_forall (fun x => is_finite x = true) results k Hfin) as Hf.
    pose proof (noise_results_forall (fun x => SFnonneg (Prim2SF x)) results k Hpos) as Hp.
    pose proof (noise_results_length results k) as Hl.
    split; [apply mean_not_nan | apply std_not_nan];
      try (apply Hcov, Hk); try exact Hf; try exact Hp; lia. }
  assert (Hmeans : Forall (fun x => is_nan x = false) (phi_by_noise results)).
  { rewrite phi_by_noise_map. apply Forall_map, Forall_forall. intros k Hk. apply Hsum, Hk. }
  split; [exact Hmeans|]. split.
  { rewrite phi_std_by_noise_map. apply Forall_map, Forall_forall.
    intros k Hk. apply Hsum, Hk. }
  apply optimal_idx_first_maximum, Hmeans.
Qed.

Lemma panel_b_on_full_coverage_witness :
  exists j,
    optimal_idx
      [mkRecord 64 "Baseline" 0.0 0.01; mkRecord 64 "Low" 0.5 0.02;
       mkRecord 64 "Medium" 1.0 0.03; mkRecord 64 "High" 2.0 0.03;
       mkRecord 64 "Very High" 5.0 0.02; mkRecord 64 "Extreme" 10.0 0.01;
       mkRecord 64 "MAXIMUM" 20.0 0.01] = Some j /\
    first_maximum
      (phi_by_noise
         [mkRecord 64 "Baseline" 0.0 0.01; mkRecord 64 "Low" 0.5 0.02;
          mkRecord 64 "Medium" 1.0 0.03; mkRecord 64 "High" 2.0 0.03;
          mkRecord 64 "Very High" 5.0 0.02; mkRecord 64 "Extreme" 10.0 0.01;
          mkRecord 64 "MAXIMUM" 20.0 0.01]) j.
Proof.
  set (results :=
         [mkRecord 64 "Baseline" 0.0 0.01; mkRecord 64 "Low" 0.5 0.02;
          mkRecord 64 "Medium" 1.0 0.03; mkRecord 64 "High" 2.0 0.03;
          mkRecord 64 "Very High" 5.0 0.02; mkRecord 64 "Extreme" 10.0 0.01;
          mkRecord 64 "MAXIMUM" 20.0 0.01]).
  assert (Hall : Forall (fun r => is_finite (avg_phi r) = true /\
                                  (0 <=? avg_phi r)%float = true) results).
  { repeat constructor. }
  assert (Hlen : Z.of_nat (List.length results) < 2 ^ 53) by reflexivity.
  assert (Hcov : forall noise_amp, In noise_amp noise_values ->
                   noise_results results noise_amp <> []).
  { intros a Ha. unfold noise_values in Ha. cbn [In] in Ha.
    repeat (destruct Ha as [<-|Ha]; [vm_compute; discriminate|]). contradiction. }
  exact (proj2 (proj2 (panel_b_on_full_coverage results Hall Hlen Hcov))).
Defined.

(** ** Figure 3: shaded triangles and drawn sides *)

Lemma binary_round_aux_abs s s' m e l :
  SFabs (binary_round_aux prec emax s m e l) = SFabs (binary_round_aux prec emax s' m e l).
Proof.
  unfold binary_round_aux.
  destruct (shr_fexp prec emax m e l) as [mrs' e'].
  destruct (shr_fexp prec emax _ e' loc_Exact) as [mrs'' e''].
  destruct (shr_m mrs''); try reflexivity.
  destruct (e'' <=? emax - prec); reflexivity.
Qed.

Lemma binary_normalize_opp_abs m e :
  SFabs (binary_normalize prec emax (- m) e false) =
  SFabs (binary_normalize prec emax m e false).
Proof.
  destruct m as [|p|p]; [reflexivity| |]; simpl; unfold binary_round;
    destruct (shl_align p e _) as [mz ez]; apply binary_round_aux_abs.
Qed.

Lemma SFsub_swap_abs a b : SFabs (SF64sub a b) = SFabs (SF64sub b a).
Proof.
  unfold SF64sub, SFsub.
  destruct a as [[]|[]| |sa ma ea], b as [[]|[]| |sb mb eb]; try reflexivity.
  rewrite (Z.min_comm eb ea).
  rewrite <- binary_normalize_opp_abs. f_equal. f_equal. lia.
Qed.

Lemma SFmul_square_abs x y : SFabs x = SFabs y -> SF64mul x x = SF64mul y y.
Proof.
  unfold SF64mul, SFmul.
  destruct x as [sx|sx| |sx mx ex], y as [sy|sy| |sy my ey]; simpl; intros H;
    try discriminate; try reflexivity;
    try (destruct sx, sy; reflexivity).
  injection H as -> ->. destruct sx, sy; reflexivity.
Qed.

Lemma square_of_difference_swap x y :
  ((x - y) * (x - y))%float = ((y - x) * (y - x))%float.
Proof.
  apply Prim2SF_inj. rewrite !mul_spec, !sub_spec.
  apply SFmul_square_abs, SFsub_swap_abs.
Qed.

Lemma norm_of_difference_sym p q : norm_of_difference p q = norm_of_difference q p.
Proof.
  unfold norm_of_difference. cbv zeta.
  rewrite (square_of_difference_swap (fst p) (fst q)).
  rewrite (square_of_difference_swap (snd p) (snd q)). reflexivity.
Qed.

Lemma SFsquare_nonneg x : x <> S754_nan -> SFnonneg (SF64mul x x).
Proof.
  unfold SF64mul, SFmul. destruct x as [[]|[]| |[] m e]; intros H; try exact I; try congruence;
    cbn [xorb]; apply binary_round_aux_nonneg; lia.
Qed.

Lemma finite_not_nan x : is_finite x = true -> Prim2SF x <> S754_nan.
Proof.
  intros H. destruct (finite_cases x H) as [[s ->] | (s & m & e & -> & _)]; discriminate.
Qed.

Lemma norm_of_difference_not_nan p q :
  finite_point p -> finite_point q -> is_nan (norm_of_difference p q) = false.
Proof.
  intros [Hp1 Hp2] [Hq1 Hq2]. unfold norm_of_difference. cbv zeta.
  apply is_nan_false_iff. rewrite sqrt_spec, add_spec, !mul_spec, !sub_spec.
  apply SFsqrt_not_nan, SFadd_nonneg.
  - apply SFsquare_nonneg, SFsub_not_nan;
      [apply is_finite_SFfinite, Hp1 | apply finite_not_nan, Hq1].
  - apply SFsquare_nonneg, SFsub_not_nan;
      [apply is_finite_SFfinite, Hp2 | apply finite_not_nan, Hq2].
Qed.

Lemma SFleb_not_gt x y : SFleb x y = true -> SFltb y x = false.
Proof.
  unfold SFleb, SFltb.
  destruct x as [[]|[]| |[] mx ex], y as [[]|[]| |[] my ey];
    simpl; try discriminate; try reflexivity;
    change (Pos.compare_cont Eq) with Pos.compare;
    intros H1; cmp_cases; simpl in *; try discriminate; try reflexivity; try lia.
Qed.

Lemma not_above_iff_le d t :
  is_nan d = false -> is_nan t = false ->
  negb (t <? d)%float = (d <=? t)%float.
Proof.
  intros Hd Ht. destruct (d <=? t)%float eqn:E.
  - rewrite leb_spec in E. rewrite ltb_spec, (SFleb_not_gt _ _ E). reflexivity.
  - rewrite (leb_total d t Hd Ht E). reflexivity.
Qed.

(** The two nested loops with their early exits compute the conjunction
    of the three tests. *)
Lemma edges_ok_tests pts :
  edges_ok pts =
  negb (threshold <? norm_of_difference (vertex pts 0) (vertex pts 1))%float &&
  negb (threshold <? norm_of_difference (vertex pts 0) (vertex pts 2))%float &&
  negb (threshold <? norm_of_difference (vertex pts 1) (vertex pts 2))%float.
Proof.
  cbv beta iota zeta delta [edges_ok range outer_loop inner_loop seq Nat.sub Nat.add].
  destruct (threshold <? norm_of_difference (vertex pts 0) (vertex pts 1))%float;
    [reflexivity|].
  destruct (threshold <? norm_of_difference (vertex pts 0) (vertex pts 2))%float;
    [reflexivity|].
  destruct (threshold <? norm_of_difference (vertex pts 1) (vertex pts 2))%float;
    reflexivity.
Qed.

(** X13. In the simplicial complex of figure 3, the two nested loops
    with their early exits shade a triangle exactly when none of its
    three pairwise distances exceeds the threshold; for triangles whose
    vertices have finite coordinates, the shaded triangles are exactly
    those whose three sides the second loop draws. *)
Theorem shaded_iff_all_sides_drawn (simplices : list triangle) :
  Forall (fun pts => finite_point (vertex pts 0) /\ finite_point (vertex pts 1) /\
                     finite_point (vertex pts 2)) simplices ->
  shaded_triangles simplices =
  filter (fun pts => side_drawn pts 0 && side_drawn pts 1 && side_drawn pts 2) simplices.
Proof.
  intros H. unfold shaded_triangles. apply filter_ext_in.
  intros pts Hin. rewrite Forall_forall in H. destruct (H pts Hin) as (H0 & H1 & H2).
  rewrite edges_ok_tests. unfold side_drawn.
  change ((0 + 1) mod 3)%nat with 1%nat. change ((1 + 1) mod 3)%nat with 2%nat.
  change ((2 + 1) mod 3)%nat with 0%nat.
  rewrite (norm_of_difference_sym (vertex pts 2) (vertex pts 0)).
  rewrite !not_above_iff_le by (try apply norm_of_difference_not_nan; auto).
  destruct (norm_of_difference (vertex pts 0) (vertex pts 1) <=? threshold)%float,
           (norm_of_difference (vertex pts 0) (vertex pts 2) <=? threshold)%float,
           (norm_of_difference (vertex pts 1) (vertex pts 2) <=? threshold)%float;
    reflexivity.
Qed.

Lemma shaded_iff_all_sides_drawn_witness :
  shaded_triangles [((0, 0), (0.5, 0), (0, 0.5)); ((0, 0), (0.9, 0), (0, 0.5))]%float =
  [((0, 0), (0.5, 0), (0, 0.5))]%float.
Proof.
  assert (H : Forall (fun pts => finite_point (vertex pts 0) /\ finite_point (vertex pts 1) /\
                                 finite_point (vertex pts 2))
                [((0, 0), (0.5, 0), (0, 0.5)); ((0, 0), (0.9, 0), (0, 0.5))]%float).
  { repeat constructor. }
  rewrite (shaded_iff_all_sides_drawn _ H). reflexivity.
Defined.
